(** * Event ingestion pipeline of src/eventProcessor.ts

    A shallow embedding of the webhook event processor: retry
    classification, PR state mapping, the account-id resolution of the
    webhook handlers, and the database effects of the registrar, the PR
    upsert, the PR-file store, the commit linker and the points ledger.

    The Prisma store is a record of tables threaded through a small
    state/exception monad.  An exception keeps the state reached so far:
    the store is not transactional, so the writes done before a throw stay. *)

From Stdlib Require Import ZArith QArith Qminmax Qround Ascii String List Lqa.
From stdpp Require Import base gmap strings list pretty.

(* ------------------------------------------------------------------ *)
(** ** Strings: [String.prototype.includes] *)

(** [includes s sub] is JavaScript's [s.includes(sub)]. *)
Fixpoint includes (s sub : string) : bool :=
  String.prefix sub s ||
  match s with
  | EmptyString => false
  | String _ s' => includes s' sub
  end.

(** The reading of "contains" used by the spec. *)
Definition contains (s sub : string) : Prop :=
  exists a b, s = (a ++ sub ++ b)%string.

(* ------------------------------------------------------------------ *)
(** ** Retry classification ([isRetryableError]) *)

Record JsError := mkError { message : string }.

Definition isRetryableError (error : JsError) : bool :=
  negb (includes (message error) "not found") &&
  negb (includes (message error) "invalid signature") &&
  negb (includes (message error) "already exists").

(* ------------------------------------------------------------------ *)
(** ** PR state mapping ([mapPRState]) *)

Inductive PRState := OPEN | CLOSED | MERGED.

#[global] Instance PRState_eq_dec : EqDecision PRState.
Proof. solve_decision. Defined.

Definition mapPRState (state : string) (merged : bool) : PRState :=
  if merged then MERGED
  else if String.eqb state "open" then OPEN else CLOSED.

(* ------------------------------------------------------------------ *)
(** ** Account-id resolution of the webhook handlers *)

(** The four id fields the handlers look at; [None] is an absent field.
    A present id is used only when it is truthy, i.e. non-zero. *)
Record Payload := mkPayload {
  installation_account_id : option Z;
  organization_id : option Z;
  repository_owner_id : option Z;
  sender_id : option Z
}.

Definition truthy (x : option Z) : option Z :=
  match x with Some n => if Z.eqb n 0 then None else Some n | None => None end.

Definition first_of (xs : list (option Z)) : option Z :=
  fold_right (fun x acc => match truthy x with Some n => Some n | None => acc end) None xs.

Inductive Handler := PullRequestH | ReviewH | PushH | IssueCommentH.

(** The [let accountId; if ... else if ...] chain at the top of each
    handler; [None] is the [else] branch that logs and returns. *)
Definition handlerAccountId (h : Handler) (p : Payload) : option Z :=
  match h with
  | PullRequestH | ReviewH | IssueCommentH =>
      first_of [installation_account_id p; organization_id p;
                repository_owner_id p; sender_id p]
  | PushH =>
      first_of [organization_id p; repository_owner_id p; sender_id p]
  end.

(** The precedence order stated by the spec. *)
Definition specAccountId (p : Payload) : option Z :=
  match installation_account_id p with
  | Some n => Some n
  | None => match organization_id p with
            | Some n => Some n
            | None => match repository_owner_id p with
                      | Some n => Some n
                      | None => sender_id p
                      end
            end
  end.

(* ------------------------------------------------------------------ *)
(** ** The store (Prisma tables) *)

Inductive AccountType := ORGANIZATION | PERSONAL.

Record Account := mkAccount {
  acc_name : string; acc_type : AccountType; acc_installationId : string }.

Record Repository := mkRepository {
  repo_name : string; repo_fullName : string; repo_accountId : string }.

Record User := mkUser {
  user_login : string; user_accountId : string;
  user_points : Z; user_level : Z;
  user_email : option string; user_name : option string }.

Record PullRequest := mkPullRequest {
  pr_number : Z; pr_title : string; pr_description : option string;
  pr_repositoryId : string; pr_authorId : string; pr_state : PRState;
  pr_additions : Z; pr_deletions : Z; pr_changedFiles : Z;
  pr_reviewerIds : list string;
  pr_firstCommitAt : option Z; pr_mergedAt : option Z; pr_closedAt : option Z;
  pr_overallScore : option Q; pr_pointsAwarded : option Z }.

(** Commits are created with [id = sha] on every path of the processor,
    so the table is keyed by the sha. *)
Record Commit := mkCommit {
  commit_message : string; commit_authorId : string;
  commit_repositoryId : string; commit_committedAt : Z }.

Record PullRequestFile := mkPullRequestFile {
  file_filename : string; file_status : string; file_additions : Z;
  file_deletions : Z; file_changes : Z; file_patch : option string }.

Record PointTransaction := mkPointTransaction {
  tx_userId : string; tx_accountId : string; tx_amount : Z;
  tx_reason : string; tx_referenceId : string; tx_referenceType : string }.

Record DB := mkDB {
  db_accounts : gmap string Account;
  db_repositories : gmap string Repository;
  db_users : gmap string User;
  db_memberships : gset (string * string);        (* (userId, accountId) *)
  db_pullRequests : gmap string PullRequest;
  db_commits : gmap string Commit;
  db_prCommits : gset (string * string);          (* (prId, commitId) *)
  db_prFiles : list (string * PullRequestFile);   (* (pullRequestId, row) *)
  db_pointTransactions : list PointTransaction }.

Definition set_accounts f db := mkDB (f (db_accounts db)) (db_repositories db)
  (db_users db) (db_memberships db) (db_pullRequests db) (db_commits db)
  (db_prCommits db) (db_prFiles db) (db_pointTransactions db).
Definition set_users f db := mkDB (db_accounts db) (db_repositories db)
  (f (db_users db)) (db_memberships db) (db_pullRequests db) (db_commits db)
  (db_prCommits db) (db_prFiles db) (db_pointTransactions db).
Definition set_memberships f db := mkDB (db_accounts db) (db_repositories db)
  (db_users db) (f (db_memberships db)) (db_pullRequests db) (db_commits db)
  (db_prCommits db) (db_prFiles db) (db_pointTransactions db).
Definition set_pullRequests f db := mkDB (db_accounts db) (db_repositories db)
  (db_users db) (db_memberships db) (f (db_pullRequests db)) (db_commits db)
  (db_prCommits db) (db_prFiles db) (db_pointTransactions db).
Definition set_commits f db := mkDB (db_accounts db) (db_repositories db)
  (db_users db) (db_memberships db) (db_pullRequests db) (f (db_commits db))
  (db_prCommits db) (db_prFiles db) (db_pointTransactions db).
Definition set_prCommits f db := mkDB (db_accounts db) (db_repositories db)
  (db_users db) (db_memberships db) (db_pullRequests db) (db_commits db)
  (f (db_prCommits db)) (db_prFiles db) (db_pointTransactions db).
Definition set_prFiles f db := mkDB (db_accounts db) (db_repositories db)
  (db_users db) (db_memberships db) (db_pullRequests db) (db_commits db)
  (db_prCommits db) (f (db_prFiles db)) (db_pointTransactions db).
Definition set_pointTransactions f db := mkDB (db_accounts db) (db_repositories db)
  (db_users db) (db_memberships db) (db_pullRequests db) (db_commits db)
  (db_prCommits db) (db_prFiles db) (f (db_pointTransactions db)).

(* ------------------------------------------------------------------ *)
(** ** Async code with exceptions over the store *)

(** [Thrown] keeps the store reached when the exception was raised. *)
Inductive outcome (A : Type) :=
  | Done (a : A) (db : DB)
  | Thrown (msg : string) (db : DB).
Arguments Done {A} a db.
Arguments Thrown {A} msg db.

Definition M (A : Type) : Type := DB -> outcome A.

#[global] Instance M_ret : MRet M := fun A a db => Done a db.
#[global] Instance M_bind : MBind M := fun A B k m db =>
  match m db with
  | Done a db' => k a db'
  | Thrown e db' => Thrown e db'
  end.

Definition get : M DB := fun db => Done db db.
Definition modify (f : DB -> DB) : M unit := fun db => Done tt (f db).
Definition throw {A} (msg : string) : M A := fun db => Thrown msg db.

(** [try { m } catch (e) { h(e) }] *)
Definition catch {A} (m : M A) (h : string -> M A) : M A := fun db =>
  match m db with
  | Done a db' => Done a db'
  | Thrown e db' => h e db'
  end.

(** [for (const x of xs) await f(x)] *)
Fixpoint forM_ {X} (xs : list X) (f : X -> M unit) : M unit :=
  match xs with
  | [] => mret tt
  | x :: xs' => f x ;; forM_ xs' f
  end.

Definition final_db {A} (o : outcome A) : DB :=
  match o with Done _ db => db | Thrown _ db => db end.

(* ------------------------------------------------------------------ *)
(** ** Prisma primitives *)

Definition record_not_found : string :=
  "An operation failed because it depends on one or more records that were required but not found. Record to update not found.".
Definition unique_failed : string := "Unique constraint failed".
Definition fk_failed : string := "Foreign key constraint failed".
Definition undefined_access : string :=
  "TypeError: Cannot read properties of undefined".

(** [prisma.user.update({ where: { id, accountId? }, data })]: the extra
    non-unique filter [accountId] must match, or the update throws. *)
Definition user_update (userId : string) (where_accountId : option string)
    (f : User -> User) : M unit := fun db =>
  match db_users db !! userId with
  | Some u =>
      match where_accountId with
      | Some a => if String.eqb a (user_accountId u)
                  then Done tt (set_users (<[userId := f u]>) db)
                  else Thrown record_not_found db
      | None => Done tt (set_users (<[userId := f u]>) db)
      end
  | None => Thrown record_not_found db
  end.

Definition user_create (userId : string) (u : User) : M unit := fun db =>
  match db_users db !! userId with
  | Some _ => Thrown unique_failed db
  | None => Done tt (set_users (<[userId := u]>) db)
  end.

Definition membership_create (userId accountId : string) : M unit := fun db =>
  if decide ((userId, accountId) ∈ db_memberships db)
  then Thrown unique_failed db
  else Done tt (set_memberships (union {[(userId, accountId)]}) db).

Definition pr_update (prId : string) (f : PullRequest -> PullRequest) : M unit :=
  fun db =>
  match db_pullRequests db !! prId with
  | Some pr => Done tt (set_pullRequests (<[prId := f pr]>) db)
  | None => Thrown record_not_found db
  end.

(** [prisma.pointTransaction.create]: the ledger is append-only. *)
Definition tx_create (tx : PointTransaction) : M unit :=
  modify (set_pointTransactions (fun l => l ++ [tx])).

Definition add_points (n : Z) (u : User) : User :=
  mkUser (user_login u) (user_accountId u) (user_points u + n) (user_level u)
         (user_email u) (user_name u).

Definition set_level (n : Z) (u : User) : User :=
  mkUser (user_login u) (user_accountId u) (user_points u) n
         (user_email u) (user_name u).

Definition set_pointsAwarded (n : Z) (pr : PullRequest) : PullRequest :=
  mkPullRequest (pr_number pr) (pr_title pr) (pr_description pr)
    (pr_repositoryId pr) (pr_authorId pr) (pr_state pr) (pr_additions pr)
    (pr_deletions pr) (pr_changedFiles pr) (pr_reviewerIds pr)
    (pr_firstCommitAt pr) (pr_mergedAt pr) (pr_closedAt pr)
    (pr_overallScore pr) (Some n).

Definition set_firstCommitAt (t : Z) (pr : PullRequest) : PullRequest :=
  mkPullRequest (pr_number pr) (pr_title pr) (pr_description pr)
    (pr_repositoryId pr) (pr_authorId pr) (pr_state pr) (pr_additions pr)
    (pr_deletions pr) (pr_changedFiles pr) (pr_reviewerIds pr)
    (Some t) (pr_mergedAt pr) (pr_closedAt pr)
    (pr_overallScore pr) (pr_pointsAwarded pr).

(* ------------------------------------------------------------------ *)
(** ** Registrar: [ensureUserExists] *)

(** The surrounding [try/catch] only rethrows, so it is left out. *)
Definition ensureUserExists (userId login accountId : string) : M unit :=
  db ← get;
  (match db_accounts db !! accountId with
   | None => modify (set_accounts (<[accountId :=
               mkAccount login ORGANIZATION "unknown"]>))
   | Some _ => mret tt
   end) ;;
  db ← get;
  match db_users db !! userId with
  | None =>
      user_create userId (mkUser login accountId 0 1 None None) ;;
      membership_create userId accountId
  | Some _ =>
      if decide ((userId, accountId) ∈ db_memberships db)
      then mret tt
      else membership_create userId accountId
  end.

(* ------------------------------------------------------------------ *)
(** ** Points and levels *)

(** [Math.round]: the nearest integer, halves rounded up. *)
Definition Math_round (x : Q) : Z := Qfloor (x + (1 # 2)).

Definition checkAndUpdateUserLevel (userId accountId : string) : M unit :=
  db ← get;
  match db_users db !! userId with
  | None => mret tt
  | Some user =>
      let newLevel := (user_points user / 100 + 1)%Z in
      if Z.gtb newLevel (user_level user)
      then user_update userId None (set_level newLevel)
      else mret tt
  end.

Definition calculateAndAwardPoints (prId : string) : M unit :=
  db ← get;
  match db_pullRequests db !! prId with
  | None => mret tt
  | Some pr =>
      match pr_overallScore pr with
      | None => mret tt                               (* !pr.overallScore *)
      | Some score =>
          if Qeq_bool score 0 then mret tt          (* !pr.overallScore *)
          else
          match db_repositories db !! pr_repositoryId pr with
          | None => throw undefined_access
          | Some repo =>
              let accountId := repo_accountId repo in
              if decide ((pr_authorId pr, accountId) ∉ db_memberships db)
              then mret tt
              else
                let points := Math_round score in
                user_update (pr_authorId pr) (Some accountId) (add_points points) ;;
                tx_create (mkPointTransaction (pr_authorId pr) accountId points
                             "pr_merged" prId "pullrequest") ;;
                pr_update prId (set_pointsAwarded points) ;;
                checkAndUpdateUserLevel (pr_authorId pr) accountId
          end
      end
  end.

(** The [switch (reviewState)] at the top of [awardPointsForReview]. *)
Definition reviewStatePoints (reviewState : string) : Z :=
  if String.eqb reviewState "APPROVED" then 10
  else if String.eqb reviewState "CHANGES_REQUESTED" then 15
  else if String.eqb reviewState "COMMENTED" then 5
  else 0.

Definition awardPointsForReview (userId prId reviewState : string) : M unit :=
  let points := reviewStatePoints reviewState in
  if Z.gtb points 0 then
    db ← get;
    match db_pullRequests db !! prId with
    | None => mret tt
    | Some pr =>
        match db_repositories db !! pr_repositoryId pr with
        | None => throw undefined_access
        | Some repo =>
            user_update userId None (add_points points) ;;
            tx_create (mkPointTransaction userId (repo_accountId repo) points
                         "review_submitted" prId "pullrequest") ;;
            checkAndUpdateUserLevel userId (repo_accountId repo)
        end
    end
  else mret tt.

(* ------------------------------------------------------------------ *)
(** ** Pull request upsert and status update *)

(** The fields of a GitHub pull request object that [storePullRequest]
    reads; [body = None] is a null body. *)
Record PRData := mkPRData {
  d_id : string; d_number : Z; d_title : string; d_body : option string;
  d_state : string; d_merged : bool;
  d_additions : Z; d_deletions : Z; d_changed_files : Z;
  d_merged_at : option Z; d_closed_at : option Z; d_user_id : string }.

Definition encryption_failed : string := "Encryption failed".

Section Encryption.
(** The encryption capability of [@/utils/encryption]: [encryptContent]
    returns [None] when it throws; [isEncrypted] is a format check. *)
Variable encryptContent : string -> option string.
Variable isEncrypted : string -> bool.

Definition storePullRequest (prData : PRData) (accountId repoId : string)
    : M PullRequest :=
  (* const description = prData.body || null *)
  let description :=
    match d_body prData with
    | Some b => if String.eqb b "" then None else Some b
    | None => None
    end in
  let state := mapPRState (d_state prData) (d_merged prData) in
  let shouldEncrypt :=
    match state with CLOSED | MERGED => true | OPEN => false end in
  (* evaluated before the try block: a throw of encryptContent escapes *)
  processedDescription ←
    (match description with
     | Some d =>
         if shouldEncrypt && negb (isEncrypted d) then
           match encryptContent d with
           | Some c => mret (Some c)
           | None => throw encryption_failed
           end
         else mret description
     | None => mret description
     end);
  db ← get;
  let pr' :=
    match db_pullRequests db !! d_id prData with
    | Some pr =>
        mkPullRequest (pr_number pr) (d_title prData) processedDescription
          (pr_repositoryId pr) (pr_authorId pr) state
          (d_additions prData) (d_deletions prData) (d_changed_files prData)
          (pr_reviewerIds pr) (pr_firstCommitAt pr)
          (d_merged_at prData) (d_closed_at prData)
          (pr_overallScore pr) (pr_pointsAwarded pr)
    | None =>
        mkPullRequest (d_number prData) (d_title prData) processedDescription
          repoId (d_user_id prData) state
          (d_additions prData) (d_deletions prData) (d_changed_files prData)
          [] None (d_merged_at prData) (d_closed_at prData) None None
    end in
  modify (set_pullRequests (<[d_id prData := pr']>)) ;;
  mret pr'.

Definition updatePullRequestStatus (prId : string) (state : PRState)
    (mergedAt : option Z) (closedAt : Z) : M unit :=
  db ← get;
  match db_pullRequests db !! prId with
  | None => mret tt
  | Some pr =>
      let description :=
        match pr_description pr with
        | Some d =>
            if negb (String.eqb d "") && negb (isEncrypted d) then
              match encryptContent d with
              | Some c => Some c
              | None => pr_description pr     (* keep the original *)
              end
            else pr_description pr
        | None => None
        end in
      pr_update prId (fun pr =>
        mkPullRequest (pr_number pr) (pr_title pr) description
          (pr_repositoryId pr) (pr_authorId pr) state
          (pr_additions pr) (pr_deletions pr) (pr_changedFiles pr)
          (pr_reviewerIds pr) (pr_firstCommitAt pr)
          mergedAt (Some closedAt)
          (pr_overallScore pr) (pr_pointsAwarded pr))
  end.

End Encryption.

(* ------------------------------------------------------------------ *)
(** ** PR files: [storePullRequestFiles] *)

(** [prisma.pullRequestFile.create]: the row references its PR. *)
Definition prFile_create (prId : string) (file : PullRequestFile) : M unit :=
  fun db =>
  match db_pullRequests db !! prId with
  | Some _ => Done tt (set_prFiles (fun l => l ++ [(prId, file)]) db)
  | None => Thrown fk_failed db
  end.

(** The creates of [Promise.all] are run in list order; errors are
    logged and swallowed. *)
Definition storePullRequestFiles (prId : string) (files : list PullRequestFile)
    : M unit :=
  match files with
  | [] => mret tt
  | _ =>
      catch
        (modify (set_prFiles (filter (fun r => r.1 <> prId))) ;;
         forM_ files (prFile_create prId))
        (fun _ => mret tt)
  end.

(* ------------------------------------------------------------------ *)
(** ** Commit linker: [linkCommitsToPullRequest] *)

Record AuthorData := mkAuthorData {
  ad_id : option string; ad_login : option string;
  ad_name : option string; ad_email : option string }.

(** An element of the GitHub "list commits on a pull request" answer. *)
Record CommitData := mkCommitData {
  cd_sha : string;
  cd_author : option AuthorData;           (* commitData.author *)
  cd_commit_author : option AuthorData;    (* commitData.commit?.author *)
  cd_message : string;                     (* commitData.commit.message *)
  cd_date : Z                              (* commitData.commit.author.date *)
}.

Definition or_else {A} (x y : option A) : option A :=
  match x with Some a => Some a | None => y end.

(** The [OR] filter of the author lookup.  Prisma drops a condition whose
    value is [undefined], and an empty condition matches every row. *)
Definition author_matches (ad : AuthorData) (kv : string * User) : bool :=
  match ad_id ad with None => true | Some i => String.eqb (kv.1) i end ||
  match or_else (ad_login ad) (ad_name ad) with
  | None => true | Some l => String.eqb (user_login kv.2) l end ||
  match ad_email ad with
  | None => false
  | Some e => match user_email kv.2 with
              | Some e' => String.eqb e' e | None => false end
  end.

(** Find (first match) or create the placeholder author; [now] is the
    rendering of [Date.now()]. *)
Definition resolveAuthor (ad : AuthorData) (accountId now : string) : M string :=
  db ← get;
  match list_find (fun kv => author_matches ad kv = true)
                  (map_to_list (db_users db)) with
  | Some (_, (uid, _)) => mret uid
  | None =>
      let uid := match ad_id ad with
                 | Some i => i | None => ("commit-author-" ++ now)%string end in
      let login := match or_else (ad_login ad) (ad_name ad) with
                   | Some l => l | None => ("unknown-" ++ now)%string end in
      user_create uid (mkUser login accountId 0 1 (ad_email ad) (ad_name ad)) ;;
      mret uid
  end.

(** [prisma.pullRequest.update({ data: { commits: { connect } } })] *)
Definition pr_connect_commit (prId commitId : string) : M unit := fun db =>
  match db_pullRequests db !! prId with
  | Some _ => Done tt (set_prCommits (union {[(prId, commitId)]}) db)
  | None => Thrown record_not_found db
  end.

(** [prisma.commit.create] with [pullRequests: { connect }]. *)
Definition commit_create (sha : string) (c : Commit) (prId : string) : M unit :=
  fun db =>
  match db_commits db !! sha with
  | Some _ => Thrown unique_failed db
  | None => Done tt (set_prCommits (union {[(prId, sha)]})
                       (set_commits (<[sha := c]>) db))
  end.

(** One iteration of the [for] loop; [continue] is [mret tt]. *)
Definition linkOne (prId now : string) (commitData : CommitData) : M unit :=
  db ← get;
  match db_commits db !! cd_sha commitData with
  | Some _ =>
      if decide ((prId, cd_sha commitData) ∈ db_prCommits db)
      then mret tt
      else pr_connect_commit prId (cd_sha commitData)
  | None =>
      match db_pullRequests db !! prId with
      | None => mret tt
      | Some pr =>
          match db_repositories db !! pr_repositoryId pr with
          | None => throw undefined_access
          | Some repo =>
              match or_else (cd_author commitData) (cd_commit_author commitData) with
              | None => mret tt
              | Some ad =>
                  authorId ← resolveAuthor ad (repo_accountId repo) now;
                  commit_create (cd_sha commitData)
                    (mkCommit (cd_message commitData) authorId
                       (pr_repositoryId pr) (cd_date commitData)) prId
              end
          end
      end
  end.

(** The [committedAt] of the commits linked to a PR. *)
Definition linkedCommitTimes (db : DB) (prId : string) : list Z :=
  omap (fun l : string * string =>
          if decide (l.1 = prId)
          then c ← db_commits db !! l.2; Some (commit_committedAt c)
          else None)
       (elements (db_prCommits db)).

Definition list_min (l : list Z) : option Z :=
  fold_right (fun t acc => match acc with
                           | None => Some t
                           | Some m => Some (Z.min t m) end) None l.

(** [prCommits] is the answer of [github.getPullRequestCommits]; [None]
    is a failed request (its exception is caught like any other). *)
Definition linkCommitsToPullRequest (prId : string)
    (prCommits : option (list CommitData)) (now : string) : M unit :=
  catch
    (match prCommits with
     | None | Some [] => mret tt
     | Some cs =>
         forM_ cs (linkOne prId now) ;;
         db ← get;
         (* findFirst ... orderBy: { committedAt: 'asc' } *)
         match list_min (linkedCommitTimes db prId) with
         | Some t => pr_update prId (set_firstCommitAt t)
         | None => mret tt
         end
     end)
    (fun _ => mret tt).

(** Commit [cid], stored as [c], is linked to PR [prId]. *)
Definition linked (db : DB) (prId cid : string) (c : Commit) : Prop :=
  (prId, cid) ∈ db_prCommits db /\ db_commits db !! cid = Some c.

(* ------------------------------------------------------------------ *)
(** ** Sequences of ledger operations *)

(** The operations that write user rows on the points path.  Each
    delivery runs on the store left by the previous one, whether it ended
    normally or with an exception. *)
Inductive LedgerOp :=
  | OpMergeAward (prId : string)
  | OpReviewAward (userId prId reviewState : string)
  | OpEnsureUser (userId login accountId : string)
  | OpLevelCheck (userId accountId : string).

Definition run_op (o : LedgerOp) : M unit :=
  match o with
  | OpMergeAward prId => calculateAndAwardPoints prId
  | OpReviewAward userId prId st => awardPointsForReview userId prId st
  | OpEnsureUser userId login accountId => ensureUserExists userId login accountId
  | OpLevelCheck userId accountId => checkAndUpdateUserLevel userId accountId
  end.

Definition run_ops (os : list LedgerOp) (db : DB) : DB :=
  fold_left (fun db o => final_db (run_op o db)) os db.

(** Every user row of [db] is still in [db'], at a level at least as high. *)
Definition levels_grow (db db' : DB) : Prop :=
  forall uid u, db_users db !! uid = Some u ->
  exists u', db_users db' !! uid = Some u' /\ (user_level u <= user_level u')%Z.

Definition keeps_levels {A} (m : M A) : Prop :=
  forall db, levels_grow db (final_db (m db)).

(* ------------------------------------------------------------------ *)
(** ** Repositories: [ensureRepositoryExists] *)

Definition set_repositories f db := mkDB (db_accounts db) (f (db_repositories db))
  (db_users db) (db_memberships db) (db_pullRequests db) (db_commits db)
  (db_prCommits db) (db_prFiles db) (db_pointTransactions db).

(** [s.split(sep)] for a one-character separator. *)
Fixpoint split_on (sep : ascii) (s : string) : list string :=
  match s with
  | EmptyString => [EmptyString]
  | String c s' =>
      let parts := split_on sep s' in
      if Ascii.eqb c sep then EmptyString :: parts
      else match parts with
           | p :: ps => String c p :: ps
           | [] => [String c EmptyString]
           end
  end.

(** Prisma's validation error for a required column given [undefined]. *)
Definition missing_name : string := "Argument `name` is missing.".

(** The surrounding [try/catch] only rethrows, so it is left out.
    [const [owner, name] = fullName.split('/')] leaves [name] undefined
    when the full name has no slash. *)
Definition ensureRepositoryExists (repoId fullName accountId : string) : M unit :=
  db ← get;
  (match db_accounts db !! accountId with
   | None =>
       let ownerName := default "" (head (split_on "/" fullName)) in
       modify (set_accounts (<[accountId :=
                 mkAccount ownerName ORGANIZATION "unknown"]>))
   | Some _ => mret tt
   end) ;;
  db ← get;
  match db_repositories db !! repoId with
  | None =>
      match split_on "/" fullName !! 1 with
      | Some name =>
          modify (set_repositories (<[repoId :=
                    mkRepository name fullName accountId]>))
      | None => throw missing_name
      end
  | Some _ => mret tt
  end.

(* ------------------------------------------------------------------ *)
(** ** Reviewers: [addReviewerToPullRequest] *)

(** Prisma's error for a nested [connect] to a missing record. *)
Definition connect_failed : string :=
  "No 'User' record was found for a nested connect on relation 'reviewers'.".

Definition push_reviewerId (reviewerId : string) (pr : PullRequest) : PullRequest :=
  mkPullRequest (pr_number pr) (pr_title pr) (pr_description pr)
    (pr_repositoryId pr) (pr_authorId pr) (pr_state pr) (pr_additions pr)
    (pr_deletions pr) (pr_changedFiles pr) (pr_reviewerIds pr ++ [reviewerId])
    (pr_firstCommitAt pr) (pr_mergedAt pr) (pr_closedAt pr)
    (pr_overallScore pr) (pr_pointsAwarded pr).

(** The update pushes the id and connects the user in one statement: it
    fails as a whole when the user does not exist.  The rows of the
    implicit [reviewers] relation are not part of this store. *)
Definition addReviewerToPullRequest (prId reviewerId : string) : M unit :=
  db ← get;
  match db_pullRequests db !! prId with
  | None => mret tt
  | Some pr =>
      if bool_decide (reviewerId ∈ pr_reviewerIds pr) then mret tt
      else match db_users db !! reviewerId with
           | None => throw connect_failed
           | Some _ => pr_update prId (push_reviewerId reviewerId)
           end
  end.

(* ------------------------------------------------------------------ *)
(** ** Reviews: [storeReview] and [mapReviewState] *)

Inductive ReviewState := R_PENDING | R_COMMENTED | R_APPROVED | R_CHANGES_REQUESTED.

Definition mapReviewState (state : string) : ReviewState :=
  if String.eqb state "APPROVED" then R_APPROVED
  else if String.eqb state "CHANGES_REQUESTED" then R_CHANGES_REQUESTED
  else if String.eqb state "COMMENTED" then R_COMMENTED
  else R_PENDING.

Record Review := mkReview {
  rv_pullRequestId : string; rv_authorId : string; rv_state : ReviewState;
  rv_body : option string; rv_submittedAt : Z }.

(** The fields of a GitHub review object that [storeReview] reads. *)
Record ReviewData := mkReviewData {
  rd_id : string; rd_state : string; rd_body : option string;
  rd_submitted_at : Z }.

(** [prisma.review.upsert] on the review table [reviews]; the store [db]
    is read for the foreign keys of a create.  [None] is a throw. *)
Definition storeReview (db : DB) (reviews : gmap string Review)
    (review : ReviewData) (prId reviewerId : string)
    : option (gmap string Review) :=
  let body := match rd_body review with
              | Some b => if String.eqb b "" then None else Some b
              | None => None end in
  match reviews !! rd_id review with
  | Some r =>
      Some (<[rd_id review := mkReview (rv_pullRequestId r) (rv_authorId r)
                (mapReviewState (rd_state review)) body
                (rd_submitted_at review)]> reviews)
  | None =>
      match db_pullRequests db !! prId, db_users db !! reviewerId with
      | Some _, Some _ =>
          Some (<[rd_id review := mkReview prId reviewerId
                    (mapReviewState (rd_state review)) body
                    (rd_submitted_at review)]> reviews)
      | _, _ => None
      end
  end.

(* ------------------------------------------------------------------ *)
(** ** Comments: [storeComment] *)

Record Comment := mkComment {
  cm_pullRequestId : string; cm_authorId : string; cm_body : string;
  cm_sentimentScore : Q; cm_createdAt : Z; cm_updatedAt : Z }.

Record CommentData := mkCommentData {
  co_id : string; co_body : option string;
  co_created_at : Z; co_updated_at : option Z }.

(** [sentimentScore] and [isOffensive] are the answers of the analyzers
    of [../ai/sentimentAnalyzer] for the comment body; [now] is
    [new Date()].  The upsert on the comment table [comments] reads [db]
    for the foreign keys of a create; [None] is a throw (rethrown).  The
    second, empty update of an offensive comment writes nothing. *)
Definition storeComment (db : DB) (comments : gmap string Comment)
    (comment : CommentData) (prId authorId : string)
    (sentimentScore : Q) (isOffensive : bool) (now : Z)
    : option (gmap string Comment * Q) :=
  let commentBody := default "" (co_body comment) in
  let adjustedScore :=
    if isOffensive then Qmax 0 (sentimentScore - (1 # 2)) else sentimentScore in
  match comments !! co_id comment with
  | Some c =>
      Some (<[co_id comment := mkComment (cm_pullRequestId c) (cm_authorId c)
                commentBody adjustedScore (cm_createdAt c) now]> comments,
            adjustedScore)
  | None =>
      match db_pullRequests db !! prId, db_users db !! authorId with
      | Some _, Some _ =>
          Some (<[co_id comment := mkComment prId authorId commentBody
                    adjustedScore (co_created_at comment)
                    (default (co_created_at comment) (co_updated_at comment))]>
                  comments,
                adjustedScore)
      | _, _ => None
      end
  end.

(* ------------------------------------------------------------------ *)
(** ** Score labels: [generateScoreLabelProps] and [addScoreLabelToPR] *)

Record LabelProps := mkLabelProps {
  lp_name : string; lp_color : string; lp_description : string }.

Definition generateScoreLabelProps (score : Q) : LabelProps :=
  let normalizedScore := Z.max 0 (Z.min 100 (Math_round score)) in
  let '(category, color, description) :=
    if Z.geb normalizedScore 90 then
      ("Excellent", "0e8a16", "Excellent code quality (90-100)")
    else if Z.geb normalizedScore 75 then
      ("Good", "85cf32", "Good code quality (75-89)")
    else if Z.geb normalizedScore 60 then
      ("Average", "fbca04", "Average code quality (60-74)")
    else if Z.geb normalizedScore 40 then
      ("Needs Work", "f79232", "Needs improvement (40-59)")
    else
      ("Critical Issues", "d73a4a", "Significant issues detected (<40)") in
  mkLabelProps
    ("Wellcode Score: " ++ pretty normalizedScore ++ " - " ++ category)%string
    color description.

(** The colours of the label scale, from the lowest band to the highest. *)
Definition label_scale : list string :=
  ["d73a4a"; "f79232"; "fbca04"; "85cf32"; "0e8a16"].

(** The band of a label: the position of its colour on [label_scale]. *)
Definition label_band (p : LabelProps) : nat :=
  default 0 (fst <$> list_find (String.eqb (lp_color p)) label_scale).

(** The band of a clamped score, as [generateScoreLabelProps] chooses it. *)
Definition band_of (n : Z) : nat :=
  if Z.geb n 90 then 4 else if Z.geb n 75 then 3 else if Z.geb n 60 then 2
  else if Z.geb n 40 then 1 else 0.

Definition isScoreLabel (name : string) : bool :=
  String.prefix "Wellcode:" name || String.prefix "Wellcode Score:" name.

(** The GitHub requests [addScoreLabelToPR] sends. *)
Inductive LabelCall :=
  | RemoveLabel (name : string)
  | AddLabel (props : LabelProps).

(** [labels] is the answer of [github.getIssueLabels] ([None]: the request
    failed, which the [catch] swallows before any other request). *)
Definition addScoreLabelToPR (labels : option (list string)) (score : Q)
    : list LabelCall :=
  match labels with
  | None => []
  | Some ls =>
      map RemoveLabel (filter (fun n => isScoreLabel n = true) ls) ++
      [AddLabel (generateScoreLabelProps score)]
  end.

(** The label set of an issue under the GitHub label endpoints: removing a
    label detaches it, adding a label attaches it once. *)
Definition apply_label_call (ls : list string) (c : LabelCall) : list string :=
  match c with
  | RemoveLabel n => filter (fun m => m <> n) ls
  | AddLabel p => if bool_decide (lp_name p ∈ ls) then ls else ls ++ [lp_name p]
  end.

Definition apply_label_calls (ls : list string) (cs : list LabelCall) : list string :=
  fold_left apply_label_call cs ls.

(* ------------------------------------------------------------------ *)
(** ** Reading a description back: [getPRDescription] *)

Section Decryption.
(** [decryptContent] returns [None] when it throws. *)
Variable decryptContent : string -> option string.
Variable isEncrypted : string -> bool.

Definition getPRDescription (prId : string) : M (option string) :=
  db ← get;
  match db_pullRequests db !! prId with
  | None => mret None
  | Some pr =>
      match pr_description pr with
      | None => mret None
      | Some d =>
          if String.eqb d "" then mret None
          else if isEncrypted d then mret (decryptContent d)
          else mret (Some d)
      end
  end.

End Decryption.

(* ------------------------------------------------------------------ *)
(** ** Push events: [processCommit] and [handlePushEvent] *)

(** The fields of a commit of a push payload that [processCommit] reads;
    timestamps are already parsed to milliseconds. *)
Record PushCommit := mkPushCommit {
  pc_id : string; pc_message : option string; pc_timestamp : option Z;
  pc_author_email : option string; pc_author_name : option string }.

(** JavaScript truthiness of a string that may be undefined. *)
Definition str_truthy (s : option string) : option string :=
  match s with
  | Some x => if String.eqb x "" then None else Some x
  | None => None
  end.

(** Strings are sequences of Latin-1 code units.  [\s] matches the
    ASCII spaces and the no-break space; [toLowerCase] maps the capital
    letters A-Z and Latin-1 capitals to their small letters. *)
Definition is_js_space (c : ascii) : bool :=
  let n := nat_of_ascii c in
  ((9 <=? n) && (n <=? 13)) || (n =? 32) || (n =? 160).

Definition js_lower (c : ascii) : ascii :=
  let n := nat_of_ascii c in
  if ((65 <=? n) && (n <=? 90)) || ((192 <=? n) && (n <=? 222) && negb (n =? 215))
  then ascii_of_nat (n + 32) else c.

(** [s.replace(/\s+/g, '')] *)
Fixpoint remove_spaces (s : string) : string :=
  match s with
  | EmptyString => EmptyString
  | String c s' => if is_js_space c then remove_spaces s' else String c (remove_spaces s')
  end.

Fixpoint toLowerCase (s : string) : string :=
  match s with
  | EmptyString => EmptyString
  | String c s' => String (js_lower c) (toLowerCase s')
  end.

(** [safeLogin]; [now] is the rendering of [Date.now()]. *)
Definition safeLogin_of (authorName : option string) (now : string) : string :=
  match authorName with
  | Some n => substring 0 20 (toLowerCase (remove_spaces n))
  | None => ("commit-author-" ++ now)%string
  end.

(** [prisma.user.findFirst({ where: { email } })] *)
Definition user_by_email (db : DB) (e : string) : option string :=
  match list_find (fun kv => user_email kv.2 = Some e) (map_to_list (db_users db)) with
  | Some (_, (uid, _)) => Some uid
  | None => None
  end.

Definition set_name (n : string) (u : User) : User :=
  mkUser (user_login u) (user_accountId u) (user_points u) (user_level u)
         (user_email u) (Some n).

(** [prisma.user.upsert({ where: { email } })]; the new user gets the
    column defaults 0 points and level 1, and the id [uuid]. *)
Definition user_upsert_by_email (email name uuid accountId login : string)
    : M string := fun db =>
  match list_find (fun kv => user_email kv.2 = Some email)
                  (map_to_list (db_users db)) with
  | Some (_, (uid, u)) => Done uid (set_users (<[uid := set_name name u]>) db)
  | None =>
      match db_users db !! uuid with
      | Some _ => Thrown unique_failed db
      | None => Done uuid (set_users (<[uuid :=
                  mkUser login accountId 0 1 (Some email) (Some name)]>) db)
      end
  end.

(** Prisma's validation error for [new Date(undefined)]. *)
Definition invalid_date : string :=
  "Invalid value for argument `committedAt`: Provided Date object is invalid.".

(** [prisma.commit.upsert({ where: { id: commit.id } })].  An undefined
    [message] leaves the column as it is.  The columns [sha], [additions],
    [deletions] and [changedFiles] of a create are not part of the
    [Commit] record of this store. *)
Definition commit_upsert (commit : PushCommit) (repoId authorId : string)
    (now_ms : Z) : M unit := fun db =>
  match db_commits db !! pc_id commit with
  | Some c =>
      match pc_timestamp commit with
      | None => Thrown invalid_date db
      | Some t =>
          Done tt (set_commits (<[pc_id commit :=
            mkCommit (default (commit_message c) (pc_message commit)) authorId
                     (commit_repositoryId c) t]>) db)
      end
  | None =>
      Done tt (set_commits (<[pc_id commit :=
        mkCommit (default "" (pc_message commit)) authorId repoId
                 (default now_ms (pc_timestamp commit))]>) db)
  end.

(** [uuid] is the value of [uuidv4()], [now] and [now_ms] those of
    [Date.now()]; every error is logged and swallowed. *)
Definition processCommit (commit : PushCommit) (repoId accountId : string)
    (uuid now : string) (now_ms : Z) : M unit :=
  catch
    (let authorEmail := str_truthy (pc_author_email commit) in
     let authorName := str_truthy (pc_author_name commit) in
     match authorEmail, authorName with
     | None, None => mret tt
     | _, _ =>
         db ← get;
         authorId ←
           (match (e ← authorEmail; user_by_email db e) with
            | Some uid => mret uid
            | None =>
                let safeLogin := safeLogin_of authorName now in
                user_upsert_by_email
                  (default (safeLogin ++ "@placeholder.com")%string authorEmail)
                  (default "Unknown User" authorName) uuid accountId safeLogin
            end);
         commit_upsert commit repoId authorId now_ms
     end)
    (fun _ => mret tt).

(** The values drawn from [uuidv4()] and [Date.now()] while processing
    one commit. *)
Record Draw := mkDraw { dr_uuid : string; dr_now : string; dr_now_ms : Z }.

(** The [for] loop over the commits; [draw i] is the draw of the [i]-th. *)
Fixpoint processCommits (draw : nat -> Draw) (i : nat) (cs : list PushCommit)
    (repoId accountId : string) : M unit :=
  match cs with
  | [] => mret tt
  | c :: cs' =>
      processCommit c repoId accountId (dr_uuid (draw i)) (dr_now (draw i))
        (dr_now_ms (draw i)) ;;
      processCommits draw (S i) cs' repoId accountId
  end.

(** [repository] is [(repository.id, repository.full_name)], [None] when
    the payload has no repository. *)
Definition handlePushEvent (p : Payload) (repository : option (string * string))
    (commits : list PushCommit) (draw : nat -> Draw) : M unit :=
  match repository with
  | None => mret tt
  | Some (repoId, repoName) =>
      match handlerAccountId PushH p with
      | None => mret tt
      | Some a =>
          let accountId := pretty a in
          ensureRepositoryExists repoId repoName accountId ;;
          processCommits draw 0 commits repoId accountId
      end
  end.

(** What a push may change: it leaves the memberships, PRs, links, PR
    files and the ledger alone, keeps every user row with its points,
    level and home account, and keeps every commit row in its repository. *)
Definition push_frame (db db' : DB) : Prop :=
  db_memberships db' = db_memberships db /\
  db_pullRequests db' = db_pullRequests db /\
  db_prCommits db' = db_prCommits db /\
  db_prFiles db' = db_prFiles db /\
  db_pointTransactions db' = db_pointTransactions db /\
  (forall uid u, db_users db !! uid = Some u ->
     exists u', db_users db' !! uid = Some u' /\
       user_points u' = user_points u /\ user_level u' = user_level u /\
       user_accountId u' = user_accountId u) /\
  (forall k c, db_commits db !! k = Some c ->
     exists c', db_commits db' !! k = Some c' /\
       commit_repositoryId c' = commit_repositoryId c).

(* ------------------------------------------------------------------ *)
(** ** Concrete inputs *)

(** A push payload that carries an installation account and an
    organization. *)
Definition push_payload : Payload := mkPayload (Some 1%Z) (Some 2%Z) None None.

Definition sample_pr : PullRequest :=
  mkPullRequest 7 "Fix login" None "r1" "u1" MERGED 10 2 1 [] None
    None None (Some (85 # 1)) None.

Definition sample_file : PullRequestFile :=
  mkPullRequestFile "src/app.ts" "modified" 10 2 12 None.

(** Account a1 owns repository r1 with the merged PR p1 by u1, who is a
    member of a1 with home account a1; commit c1 is known locally. *)
Definition sample_db : DB :=
  mkDB (<["a1" := mkAccount "org" ORGANIZATION "99"]> ∅)
       (<["r1" := mkRepository "repo" "org/repo" "a1"]> ∅)
       (<["u1" := mkUser "alice" "a1" 150 2 None None]> ∅)
       {[("u1", "a1")]}
       (<["p1" := sample_pr]> ∅)
       (<["c1" := mkCommit "init" "u1" "r1" 50]> ∅)
       ∅ [("p1", sample_file)] [].

(** As [sample_db], but u1's home account is a2 while u1 is also a
    member of a1. *)
Definition sample_db_other_home : DB :=
  set_accounts (<["a2" := mkAccount "other" ORGANIZATION "98"]>)
    (set_users (<["u1" := mkUser "alice" "a2" 150 2 None None]>)
       (set_memberships (union {[("u1", "a2")]}) sample_db)).

(** As [sample_db], with c1 already linked to p1 and no [firstCommitAt]
    recorded, as left by a linking run whose final update failed. *)
Definition sample_db_linked : DB :=
  set_prCommits (fun _ => {[("p1", "c1")]}) sample_db.

Definition sample_author : AuthorData :=
  mkAuthorData (Some "u9") (Some "bob") None None.

(** Three upstream commits: c1 exists locally, c2 and c3 do not. *)
Definition sample_commits : list CommitData :=
  [mkCommitData "c1" None None "init" 50;
   mkCommitData "c2" (Some sample_author) None "second" 30;
   mkCommitData "c3" (Some sample_author) None "third" 40].

Definition sample_prData : PRData :=
  mkPRData "p1" 7 "Fix login" (Some "plain text") "closed" true 10 2 1
    (Some 1000%Z) (Some 1000%Z) "u1".

(** A toy cipher: a ciphertext is the plaintext behind a '#' mark. *)
Definition sample_encrypt (x : string) : option string := Some (String "#" x).

Definition sample_isEncrypted (s : string) : bool :=
  match s with String c _ => Ascii.eqb c "#" | EmptyString => false end.

Definition sample_decrypt (s : string) : option string :=
  match s with
  | String c r => if Ascii.eqb c "#" then Some r else None
  | EmptyString => None
  end.

Definition sample_review : ReviewData :=
  mkReviewData "rv1" "APPROVED" (Some "LGTM") 2000.

Definition sample_comment : CommentData :=
  mkCommentData "cm1" (Some "this is awful") 3000 None.

(** A push commit by an author unknown to [sample_db]. *)
Definition sample_push_commit : PushCommit :=
  mkPushCommit "c9" (Some "push commit") (Some 4000%Z)
    (Some "bob@example.com") (Some "Bob Builder").

Definition sample_draw (i : nat) : Draw :=
  mkDraw ("uuid-" ++ pretty i) "5000" 5000.

(* ================================================================== *)
(** * Proofs *)

Lemma prefix_spec (sub s : string) :
  String.prefix sub s = true <-> exists b, s = (sub ++ b)%string.
Proof.
  revert sub; induction s as [|c' s IH]; intros sub; destruct sub as [|c sub]; simpl.
  - split; [intros _; now exists EmptyString | reflexivity].
  - split; [discriminate | intros [b Hb]; discriminate].
  - split; [intros _; now exists (String c' s) | reflexivity].
  - destruct (Ascii.ascii_dec c c') as [->|Hne].
    + rewrite IH. split; intros [b Hb]; exists b; [now rewrite Hb | now injection Hb].
    + split; [discriminate | intros [b Hb]; injection Hb; intros; congruence].
Qed.

Lemma includes_spec (s sub : string) :
  includes s sub = true <-> contains s sub.
Proof.
  unfold contains; induction s as [|c s IH]; cbn [includes].
  - rewrite orb_false_r, prefix_spec. split.
    + intros [b Hb]. now exists EmptyString, b.
    + intros [a [b Hab]]. destruct a; [now exists b | discriminate].
  - rewrite orb_true_iff, prefix_spec, IH. split.
    + intros [[b Hb] | [a [b Hab]]].
      * now exists EmptyString, b.
      * exists (String c a), b. now rewrite Hab.
    + intros [a [b Hab]]. destruct a as [|c' a]; simpl in Hab.
      * left. now exists b.
      * right. injection Hab; intros Hs _. now exists a, b.
Qed.

Example isRetryableError_ex1 :
  isRetryableError (mkError "Record to update not found.") = false.
Proof. reflexivity. Qed.

(** C1: [isRetryableError] answers "non-retryable" exactly when the
    message contains "not found", "invalid signature" or "already exists";
    "Pull request not found" is non-retryable and "connection timeout"
    is retryable. *)
Theorem isRetryableError_classification :
  (forall error : JsError,
     isRetryableError error = false <->
       contains (message error) "not found" \/
       contains (message error) "invalid signature" \/
       contains (message error) "already exists") /\
  isRetryableError (mkError "Pull request not found") = false /\
  isRetryableError (mkError "connection timeout") = true.
Proof.
  split; [|split; reflexivity].
  intros error. unfold isRetryableError.
  rewrite <- !includes_spec.
  destruct (includes (message error) "not found"),
           (includes (message error) "invalid signature"),
           (includes (message error) "already exists"); simpl;
    intuition congruence.
Qed.

(** C2: [mapPRState] yields MERGED whenever [merged] holds, whatever the
    raw state string; otherwise OPEN for "open" and CLOSED for anything else. *)
Theorem mapPRState_spec (state : string) (merged : bool) :
  (merged = true -> mapPRState state merged = MERGED) /\
  (merged = false -> state = "open"%string -> mapPRState state merged = OPEN) /\
  (merged = false -> state <> "open"%string -> mapPRState state merged = CLOSED) /\
  mapPRState "open" true = MERGED.
Proof.
  unfold mapPRState. repeat split; intros Hm; subst; try reflexivity.
  - intros ->. reflexivity.
  - intros Hne. destruct (String.eqb_spec state "open"); congruence.
Qed.

(** The three handlers other than push follow the spec's order whenever
    the ids present are non-zero. *)
Lemma handlerAccountId_non_push (h : Handler) (p : Payload) :
  h <> PushH ->
  Forall (fun x => x <> Some 0%Z)
    [installation_account_id p; organization_id p;
     repository_owner_id p; sender_id p] ->
  handlerAccountId h p = specAccountId p.
Proof.
  intros Hh Hnz. destruct p as [i o r s]; simpl in *.
  repeat match goal with H : Forall _ (_ :: _) |- _ => inversion H; subst; clear H end.
  unfold specAccountId, first_of, truthy; simpl.
  destruct h; [| | congruence |];
    destruct i as [[|i|i]|]; try congruence;
    destruct o as [[|o|o]|]; try congruence;
    destruct r as [[|r|r]|]; try congruence;
    destruct s as [[|s|s]|]; try congruence; reflexivity.
Qed.

(** C6 (failing input): the push handler does not look at
    [installation.account.id]: for a payload with installation account 1
    and organization 2 it resolves 2, where the precedence order (and the
    three other handlers) give 1. *)
Theorem push_handler_skips_installation_account :
  handlerAccountId PushH push_payload = Some 2%Z /\
  specAccountId push_payload = Some 1%Z /\
  handlerAccountId PullRequestH push_payload = Some 1%Z /\
  handlerAccountId ReviewH push_payload = Some 1%Z /\
  handlerAccountId IssueCommentH push_payload = Some 1%Z.
Proof. repeat split. Qed.

(** ** PR files *)

Lemma forM_prFile_create (prId : string) (pr : PullRequest)
    (files : list PullRequestFile) (db : DB) :
  db_pullRequests db !! prId = Some pr ->
  forM_ files (prFile_create prId) db =
  Done tt (set_prFiles (fun l => l ++ map (pair prId) files) db).
Proof.
  revert db; induction files as [|f files IH]; intros db Hpr; simpl.
  - destruct db; unfold set_prFiles; simpl. now rewrite app_nil_r.
  - unfold mbind, M_bind, prFile_create. rewrite Hpr.
    rewrite IH by exact Hpr.
    destruct db; unfold set_prFiles; simpl. now rewrite <- app_assoc.
Qed.

Lemma filter_eq_map_pair (prId : string) (files : list PullRequestFile) :
  filter (fun r : string * PullRequestFile => r.1 = prId) (map (pair prId) files)
  = map (pair prId) files.
Proof.
  induction files as [|f files IH]; simpl; [done|].
  rewrite filter_cons_True by done. now f_equal.
Qed.

Lemma filter_ne_map_pair (prId : string) (files : list PullRequestFile) :
  filter (fun r : string * PullRequestFile => r.1 <> prId) (map (pair prId) files)
  = [].
Proof.
  induction files as [|f files IH]; simpl; [done|].
  rewrite filter_cons_False by (simpl; congruence). exact IH.
Qed.

Lemma filter_eq_filter_ne (prId : string) (l : list (string * PullRequestFile)) :
  filter (fun r : string * PullRequestFile => r.1 = prId)
    (filter (fun r => r.1 <> prId) l) = [].
Proof.
  induction l as [|r l IH]; simpl; [done|].
  destruct (decide (r.1 = prId)).
  - rewrite filter_cons_False by tauto. exact IH.
  - rewrite filter_cons_True by done. rewrite filter_cons_False by done. exact IH.
Qed.

Lemma storePullRequestFiles_nonempty (prId : string) (pr : PullRequest)
    (files : list PullRequestFile) (db : DB) :
  files <> [] -> db_pullRequests db !! prId = Some pr ->
  storePullRequestFiles prId files db =
  Done tt (set_prFiles (fun l => filter (fun r => r.1 <> prId) l
                                 ++ map (pair prId) files) db).
Proof.
  intros Hne Hpr. destruct files as [|f0 fs]; [congruence|].
  unfold storePullRequestFiles, catch, mbind, M_bind, modify.
  rewrite (forM_prFile_create prId pr) by (destruct db; exact Hpr).
  destruct db; reflexivity.
Qed.

(** C7 (amended): for a non-empty file list of an existing PR, the call
    leaves exactly the given rows for that PR, keeps the rows of the
    other PRs, and a second identical call changes nothing; an empty list
    leaves the store untouched. *)
Theorem storePullRequestFiles_replaces (prId : string) (pr : PullRequest)
    (files : list PullRequestFile) (db : DB) :
  files <> [] -> db_pullRequests db !! prId = Some pr ->
  let db' := final_db (storePullRequestFiles prId files db) in
  filter (fun r => r.1 = prId) (db_prFiles db') = map (pair prId) files /\
  filter (fun r => r.1 <> prId) (db_prFiles db') =
    filter (fun r => r.1 <> prId) (db_prFiles db) /\
  storePullRequestFiles prId files db' = Done tt db' /\
  storePullRequestFiles prId [] db = Done tt db.
Proof.
  intros Hne Hpr db'. subst db'.
  rewrite (storePullRequestFiles_nonempty prId pr) by assumption. simpl.
  repeat split.
  - rewrite filter_app, filter_eq_filter_ne, filter_eq_map_pair. done.
  - rewrite filter_app, filter_ne_map_pair, list_filter_filter, app_nil_r.
    apply list_filter_iff. intros x. tauto.
  - rewrite (storePullRequestFiles_nonempty prId pr) by (destruct db; assumption).
    destruct db; unfold set_prFiles; simpl. do 2 f_equal.
    rewrite filter_app, filter_ne_map_pair, list_filter_filter, app_nil_r.
    f_equal. apply list_filter_iff. intros x. tauto.
Qed.

(** C7 (counterexample): an empty file list is skipped by the early
    return, so the existing row of p1 stays. *)
Lemma storePullRequestFiles_empty_keeps_rows :
  filter (fun r : string * PullRequestFile => r.1 = "p1"%string)
    (db_prFiles (final_db (storePullRequestFiles "p1" [] sample_db)))
  <> map (pair "p1"%string) [].
Proof. simpl. discriminate. Qed.

Lemma storePullRequestFiles_replaces_witness :
  [sample_file] <> [] /\ db_pullRequests sample_db !! "p1"%string = Some sample_pr /\
  (let db' := final_db (storePullRequestFiles "p1" [sample_file] sample_db) in
   filter (fun r => r.1 = "p1"%string) (db_prFiles db') = map (pair "p1"%string) [sample_file] /\
   filter (fun r => r.1 <> "p1"%string) (db_prFiles db') =
     filter (fun r => r.1 <> "p1"%string) (db_prFiles sample_db) /\
   storePullRequestFiles "p1" [sample_file] db' = Done tt db' /\
   storePullRequestFiles "p1" [] sample_db = Done tt sample_db).
Proof.
  split; [discriminate|]. split; [reflexivity|].
  apply (storePullRequestFiles_replaces "p1" sample_pr); [discriminate | reflexivity].
Defined.

(** ** Registrar *)

(** C10 (amended): for an existing user, [ensureUserExists] leaves the
    user rows as they are; it may create the Account row of [accountId]
    when that account is missing, and adds the (userId, accountId)
    membership when it is missing; no other table changes. *)
Theorem ensureUserExists_existing_user (userId login accountId : string)
    (u : User) (db : DB) :
  db_users db !! userId = Some u ->
  exists db', ensureUserExists userId login accountId db = Done tt db' /\
    db_users db' = db_users db /\
    db_memberships db' = {[(userId, accountId)]} ∪ db_memberships db /\
    (db_accounts db' = db_accounts db \/
     (db_accounts db !! accountId = None /\
      db_accounts db' = <[accountId := mkAccount login ORGANIZATION "unknown"]>
                          (db_accounts db))) /\
    db_repositories db' = db_repositories db /\
    db_pullRequests db' = db_pullRequests db /\
    db_commits db' = db_commits db /\
    db_prCommits db' = db_prCommits db /\
    db_prFiles db' = db_prFiles db /\
    db_pointTransactions db' = db_pointTransactions db.
Proof.
  intros Hu. destruct db as [acc repos users mem prs cs links files txs]; simpl in Hu.
  unfold ensureUserExists, mbind, M_bind, mret, M_ret, get, modify,
    membership_create; simpl.
  destruct (acc !! accountId) as [a|] eqn:Ha; simpl; rewrite Hu;
    (destruct (decide ((userId, accountId) ∈ mem)) as [Hm|Hm];
     [eexists; split; [reflexivity|]; simpl;
      repeat split; try tauto; apply leibniz_equiv; set_solver
     |rewrite decide_False by exact Hm; eexists; split; [reflexivity|]; simpl;
      repeat split; tauto]).
Qed.

Lemma ensureUserExists_existing_user_witness :
  db_users sample_db !! "u1"%string = Some (mkUser "alice" "a1" 150 2 None None) /\
  exists db', ensureUserExists "u1" "alice" "a1" sample_db = Done tt db' /\
    db_users db' = db_users sample_db /\
    db_memberships db' = {[("u1"%string, "a1"%string)]} ∪ db_memberships sample_db /\
    (db_accounts db' = db_accounts sample_db \/
     (db_accounts sample_db !! "a1"%string = None /\
      db_accounts db' = <["a1"%string := mkAccount "alice" ORGANIZATION "unknown"]>
                          (db_accounts sample_db))) /\
    db_repositories db' = db_repositories sample_db /\
    db_pullRequests db' = db_pullRequests sample_db /\
    db_commits db' = db_commits sample_db /\
    db_prCommits db' = db_prCommits sample_db /\
    db_prFiles db' = db_prFiles sample_db /\
    db_pointTransactions db' = db_pointTransactions sample_db.
Proof.
  split; [reflexivity|].
  apply (ensureUserExists_existing_user "u1" "alice" "a1"
           (mkUser "alice" "a1" 150 2 None None)).
  reflexivity.
Defined.

(** C10 (counterexample): u1 exists, yet a call under the unknown account
    a3 also creates the Account row a3. *)
Lemma ensureUserExists_creates_account :
  db_users sample_db !! "u1"%string <> None /\
  db_accounts (final_db (ensureUserExists "u1" "alice" "a3" sample_db))
    <> db_accounts sample_db.
Proof.
  split; [discriminate|].
  intros H. apply (f_equal (lookup "a3"%string)) in H.
  vm_compute in H. discriminate.
Qed.

(** ** PR upsert and encryption *)

(** The status update falls back to the plaintext when encryption throws. *)
Lemma updatePullRequestStatus_keeps_plaintext
    (encryptContent : string -> option string) (isEncrypted : string -> bool)
    (prId : string) (state : PRState) (mergedAt : option Z) (closedAt : Z)
    (pr : PullRequest) (d : string) (db : DB) :
  db_pullRequests db !! prId = Some pr -> pr_description pr = Some d ->
  encryptContent d = None ->
  exists db' pr', updatePullRequestStatus encryptContent isEncrypted prId state
                    mergedAt closedAt db = Done tt db' /\
    db_pullRequests db' !! prId = Some pr' /\ pr_description pr' = Some d.
Proof.
  intros Hpr Hd He. destruct db; simpl in Hpr.
  unfold updatePullRequestStatus, mbind, M_bind, get, pr_update; simpl.
  rewrite Hpr, Hd, He; simpl; rewrite Hpr. eexists _, _. split; [reflexivity|]. simpl.
  rewrite lookup_insert_eq. split; [reflexivity|]. simpl.
  destruct (negb (String.eqb d "") && negb (isEncrypted d)); reflexivity.
Qed.

(** C3 (failing input): a merged PR with a plaintext body, and an
    encryption capability that throws: [storePullRequest] propagates the
    exception and persists nothing, where the claim (and
    [updatePullRequestStatus]) store the plaintext. *)
Theorem storePullRequest_encryption_failure_escapes :
  mapPRState (d_state sample_prData) (d_merged sample_prData) = MERGED /\
  storePullRequest (fun _ => None) (fun _ => false) sample_prData "a1" "r1" sample_db
    = Thrown encryption_failed sample_db.
Proof. split; reflexivity. Qed.

(** ** Points for a merged PR *)

Lemma Math_round_85 : Math_round (85 # 1) = 85%Z.
Proof. reflexivity. Qed.

(** The outcomes of [calculateAndAwardPoints] for a PR with a non-zero
    [overallScore] in an existing repository: without the author's
    membership in the repository's account nothing changes; with it, and
    when the author's home account is that account, the author gains
    [Math.round overallScore] points, one [pr_merged] transaction is
    appended and [pointsAwarded] is set; when the home account is another
    one, the user update filtered on [accountId] throws before anything is
    written. *)
Lemma calculateAndAwardPoints_cases (prId : string) (pr : PullRequest)
    (score : Q) (repo : Repository) (db : DB) :
  db_pullRequests db !! prId = Some pr ->
  pr_overallScore pr = Some score -> ~ (score == 0)%Q ->
  db_repositories db !! pr_repositoryId pr = Some repo ->
  ((pr_authorId pr, repo_accountId repo) ∉ db_memberships db ->
     calculateAndAwardPoints prId db = Done tt db) /\
  (forall u, (pr_authorId pr, repo_accountId repo) ∈ db_memberships db ->
     db_users db !! pr_authorId pr = Some u ->
     user_accountId u = repo_accountId repo ->
     exists db', calculateAndAwardPoints prId db = Done tt db' /\
       (exists u', db_users db' !! pr_authorId pr = Some u' /\
                   user_points u' = (user_points u + Math_round score)%Z) /\
       db_pointTransactions db' = db_pointTransactions db ++
         [mkPointTransaction (pr_authorId pr) (repo_accountId repo)
            (Math_round score) "pr_merged" prId "pullrequest"] /\
       (exists pr', db_pullRequests db' !! prId = Some pr' /\
                    pr_pointsAwarded pr' = Some (Math_round score))) /\
  (forall u, (pr_authorId pr, repo_accountId repo) ∈ db_memberships db ->
     db_users db !! pr_authorId pr = Some u ->
     user_accountId u <> repo_accountId repo ->
     calculateAndAwardPoints prId db = Thrown record_not_found db).
Proof.
  intros Hpr Hs Hnz Hrepo.
  assert (Hq : Qeq_bool score 0 = false).
  { destruct (Qeq_bool score 0) eqn:E; [|reflexivity].
    exfalso. apply Hnz. now apply Qeq_bool_iff. }
  destruct db as [acc repos users mem prs cs links files txs]; simpl in *.
  unfold calculateAndAwardPoints, mbind, M_bind, mret, M_ret, get; simpl.
  rewrite Hpr, Hs, Hq, Hrepo.
  split; [|split].
  - intros Hm. rewrite decide_True by exact Hm. reflexivity.
  - intros u Hm Hu Hacc. rewrite decide_False by tauto.
    unfold user_update, tx_create, modify, pr_update, checkAndUpdateUserLevel,
      mbind, M_bind, mret, M_ret, get, set_users, set_pointTransactions,
      set_pullRequests; simpl.
    rewrite Hu, Hacc, String.eqb_refl; simpl.
    rewrite Hpr; simpl. rewrite lookup_insert_eq; simpl.
    match goal with |- context [if ?b then _ else _] => destruct b end.
    + unfold user_update, set_users; simpl. rewrite lookup_insert_eq.
      eexists; split; [reflexivity|]. simpl.
      split; [|split].
      * eexists; split; [apply lookup_insert_eq | reflexivity].
      * reflexivity.
      * eexists; split; [apply lookup_insert_eq | reflexivity].
    + eexists; split; [reflexivity|]. simpl.
      split; [|split].
      * eexists; split; [apply lookup_insert_eq | reflexivity].
      * reflexivity.
      * eexists; split; [apply lookup_insert_eq | reflexivity].
  - intros u Hm Hu Hacc. rewrite decide_False by tauto.
    unfold user_update, mbind, M_bind; simpl.
    rewrite Hu. destruct (String.eqb_spec (repo_accountId repo) (user_accountId u));
      [congruence | reflexivity].
Qed.

(** C4 (failing input): u1 is a member of a1, the account of p1's
    repository, but its home account is a2.  The membership gate passes,
    and the user update, filtered on [accountId = a1], finds no row and
    throws: no points, no transaction and no [pointsAwarded] are written,
    and the exception escapes, where the claim (and the spec's "do not
    throw") award the points once the membership is present.  The sibling
    [awardPointsForReview], which updates the user by id only, awards u1
    its review points on the same store. *)
Theorem calculateAndAwardPoints_member_other_home_throws :
  ("u1"%string, "a1"%string) ∈ db_memberships sample_db_other_home /\
  db_pullRequests sample_db_other_home !! "p1"%string = Some sample_pr /\
  pr_overallScore sample_pr = Some (85 # 1) /\
  db_repositories sample_db_other_home !! pr_repositoryId sample_pr =
    Some (mkRepository "repo" "org/repo" "a1") /\
  calculateAndAwardPoints "p1" sample_db_other_home
    = Thrown record_not_found sample_db_other_home /\
  exists db', awardPointsForReview "u1" "p1" "APPROVED" sample_db_other_home
                = Done tt db' /\
    db_pointTransactions db' =
      [mkPointTransaction "u1" "a1" 10 "review_submitted" "p1" "pullrequest"].
Proof.
  split; [unfold sample_db_other_home, sample_db, set_memberships; simpl; set_solver|].
  split; [reflexivity|]. split; [reflexivity|]. split; [reflexivity|].
  split; [reflexivity|].
  eexists; split; [vm_compute; reflexivity | vm_compute; reflexivity].
Qed.

(** ** Points for a review *)

Lemma reviewStatePoints_other (reviewState : string) :
  reviewState <> "APPROVED"%string -> reviewState <> "CHANGES_REQUESTED"%string ->
  reviewState <> "COMMENTED"%string -> reviewStatePoints reviewState = 0%Z.
Proof.
  intros H1 H2 H3. unfold reviewStatePoints.
  destruct (String.eqb_spec reviewState "APPROVED"); [congruence|].
  destruct (String.eqb_spec reviewState "CHANGES_REQUESTED"); [congruence|].
  destruct (String.eqb_spec reviewState "COMMENTED"); [congruence|].
  reflexivity.
Qed.

Lemma reviewStatePoints_nonneg (reviewState : string) :
  (0 <= reviewStatePoints reviewState)%Z.
Proof.
  unfold reviewStatePoints.
  destruct (String.eqb reviewState "APPROVED"),
           (String.eqb reviewState "CHANGES_REQUESTED"),
           (String.eqb reviewState "COMMENTED"); lia.
Qed.

(** C5 (amended): the amount depends on the review state only (APPROVED
    10, CHANGES_REQUESTED 15, COMMENTED 5, otherwise 0).  For a PR that
    exists in an existing repository and a reviewer that has a user row, a
    positive amount is added to the reviewer's points and exactly one
    [review_submitted] transaction with that amount is appended; when the
    PR is not found nothing changes and nothing is thrown; a zero amount
    changes nothing. *)
Theorem awardPointsForReview_spec (userId prId reviewState : string) (db : DB) :
  reviewStatePoints "APPROVED" = 10%Z /\
  reviewStatePoints "CHANGES_REQUESTED" = 15%Z /\
  reviewStatePoints "COMMENTED" = 5%Z /\
  (reviewState <> "APPROVED"%string -> reviewState <> "CHANGES_REQUESTED"%string ->
   reviewState <> "COMMENTED"%string -> reviewStatePoints reviewState = 0%Z) /\
  (forall pr repo u,
   db_pullRequests db !! prId = Some pr ->
   db_repositories db !! pr_repositoryId pr = Some repo ->
   db_users db !! userId = Some u ->
   (0 < reviewStatePoints reviewState)%Z ->
   exists db', awardPointsForReview userId prId reviewState db = Done tt db' /\
     (exists u', db_users db' !! userId = Some u' /\
       user_points u' = (user_points u + reviewStatePoints reviewState)%Z) /\
     db_pointTransactions db' = db_pointTransactions db ++
       [mkPointTransaction userId (repo_accountId repo)
          (reviewStatePoints reviewState) "review_submitted" prId "pullrequest"]) /\
  (db_pullRequests db !! prId = None ->
   awardPointsForReview userId prId reviewState db = Done tt db) /\
  (reviewStatePoints reviewState = 0%Z ->
   awardPointsForReview userId prId reviewState db = Done tt db).
Proof.
  split; [reflexivity|]. split; [reflexivity|]. split; [reflexivity|].
  split; [apply reviewStatePoints_other|]. split; [|split].
  - intros pr repo u Hpr Hrepo Hu Hpos. unfold awardPointsForReview.
    assert (Hgt : Z.gtb (reviewStatePoints reviewState) 0 = true) by lia.
    rewrite Hgt.
    destruct db as [acc repos users mem prs cs links files txs]; simpl in *.
    unfold user_update, tx_create, modify, checkAndUpdateUserLevel,
      mbind, M_bind, mret, M_ret, get, set_users, set_pointTransactions; simpl.
    rewrite Hpr, Hrepo; simpl. rewrite Hu; simpl. rewrite lookup_insert_eq.
    match goal with |- context [if ?b then _ else _] => destruct b end.
    + unfold user_update, set_users; simpl. rewrite lookup_insert_eq.
      eexists; split; [reflexivity|]. simpl. split; [|reflexivity].
      eexists; split; [apply lookup_insert_eq | reflexivity].
    + eexists; split; [reflexivity|]. simpl. split; [|reflexivity].
      eexists; split; [apply lookup_insert_eq | reflexivity].
  - intros Hpr. unfold awardPointsForReview.
    destruct (Z.gtb (reviewStatePoints reviewState) 0); [|reflexivity].
    unfold mbind, M_bind, get. rewrite Hpr. reflexivity.
  - intros H0. unfold awardPointsForReview. rewrite H0. reflexivity.
Qed.

Lemma awardPointsForReview_spec_witness :
  db_pullRequests sample_db !! "p1"%string = Some sample_pr /\
  db_repositories sample_db !! pr_repositoryId sample_pr =
    Some (mkRepository "repo" "org/repo" "a1") /\
  db_users sample_db !! "u1"%string = Some (mkUser "alice" "a1" 150 2 None None) /\
  (exists db', awardPointsForReview "u1" "p1" "APPROVED" sample_db = Done tt db' /\
    (exists u', db_users db' !! "u1"%string = Some u' /\ user_points u' = 160%Z) /\
    db_pointTransactions db' =
      [mkPointTransaction "u1" "a1" 10 "review_submitted" "p1" "pullrequest"]) /\
  db_pullRequests sample_db !! "p404"%string = None /\
  awardPointsForReview "u1" "p404" "APPROVED" sample_db = Done tt sample_db.
Proof.
  split; [reflexivity|]. split; [reflexivity|]. split; [reflexivity|].
  split.
  - destruct (awardPointsForReview_spec "u1" "p1" "APPROVED" sample_db)
      as [_ [_ [_ [_ [Hpos _]]]]].
    apply (Hpos sample_pr (mkRepository "repo" "org/repo" "a1")
              (mkUser "alice" "a1" 150 2 None None));
      reflexivity.
  - split; [reflexivity|].
    destruct (awardPointsForReview_spec "u1" "p404" "APPROVED" sample_db)
      as [_ [_ [_ [_ [_ [Hnone _]]]]]].
    apply Hnone. reflexivity.
Defined.

(** C5 (counterexample): an APPROVED review on a PR that is not stored
    (p404) is worth 10 points, yet no transaction is appended. *)
Lemma awardPointsForReview_missing_pr :
  reviewStatePoints "APPROVED" = 10%Z /\
  awardPointsForReview "u1" "p404" "APPROVED" sample_db = Done tt sample_db /\
  ~ (exists tx, db_pointTransactions
                  (final_db (awardPointsForReview "u1" "p404" "APPROVED" sample_db))
                = db_pointTransactions sample_db ++ [tx]).
Proof.
  split; [reflexivity|]. split; [reflexivity|].
  intros [tx Htx]. simpl in Htx. discriminate.
Qed.

(** ** Levels *)

Lemma levels_grow_refl (db : DB) : levels_grow db db.
Proof. intros uid u Hu. exists u. split; [exact Hu | lia]. Qed.

Lemma levels_grow_trans (db1 db2 db3 : DB) :
  levels_grow db1 db2 -> levels_grow db2 db3 -> levels_grow db1 db3.
Proof.
  intros H12 H23 uid u Hu.
  destruct (H12 uid u Hu) as [u2 [Hu2 Hl2]].
  destruct (H23 uid u2 Hu2) as [u3 [Hu3 Hl3]].
  exists u3. split; [exact Hu3 | lia].
Qed.

Lemma keeps_levels_users {A} (m : M A) :
  (forall db, db_users (final_db (m db)) = db_users db) -> keeps_levels m.
Proof. intros H db. unfold levels_grow. rewrite H. apply levels_grow_refl. Qed.

Lemma keeps_levels_ret {A} (a : A) : keeps_levels (mret a).
Proof. intros db. apply levels_grow_refl. Qed.

Lemma keeps_levels_throw {A} (msg : string) : keeps_levels (@throw A msg).
Proof. intros db. apply levels_grow_refl. Qed.

Lemma keeps_levels_bind {A B} (m : M A) (k : A -> M B) :
  keeps_levels m -> (forall a, keeps_levels (k a)) -> keeps_levels (m ≫= k).
Proof.
  intros Hm Hk db. unfold mbind, M_bind.
  specialize (Hm db). destruct (m db) as [a db'|e db']; simpl in *.
  - eapply levels_grow_trans; [exact Hm | apply Hk].
  - exact Hm.
Qed.

(** Reading the store and continuing with a step that keeps levels. *)
Lemma keeps_levels_get {B} (k : DB -> M B) :
  (forall d, keeps_levels (k d)) -> keeps_levels (get ≫= k).
Proof. intros Hk db. apply Hk. Qed.

Lemma keeps_levels_user_update (userId : string) (w : option string)
    (f : User -> User) :
  (forall u, (user_level u <= user_level (f u))%Z) ->
  keeps_levels (user_update userId w f).
Proof.
  intros Hf db uid u Hu. unfold user_update.
  destruct (db_users db !! userId) as [v|] eqn:Hv;
    [destruct w as [a|]; [destruct (String.eqb a (user_accountId v))|]|];
    simpl; try (exists u; split; [exact Hu | lia]);
    (destruct (decide (uid = userId)) as [->|Hne];
     [rewrite lookup_insert_eq; rewrite Hv in Hu; injection Hu as <-;
      eexists; split; [reflexivity | apply Hf]
     |rewrite lookup_insert_ne by congruence; exists u; split; [exact Hu | lia]]).
Qed.

Lemma keeps_levels_user_create (userId : string) (u : User) :
  keeps_levels (user_create userId u).
Proof.
  intros db uid v Hv. unfold user_create.
  destruct (db_users db !! userId) as [w|] eqn:Hw; simpl.
  - exists v. split; [exact Hv | lia].
  - destruct (decide (uid = userId)) as [->|Hne]; [congruence|].
    rewrite lookup_insert_ne by congruence. exists v. split; [exact Hv | lia].
Qed.

Lemma keeps_levels_checkAndUpdateUserLevel (userId accountId : string) :
  keeps_levels (checkAndUpdateUserLevel userId accountId).
Proof.
  intros db. unfold checkAndUpdateUserLevel, mbind, M_bind, get.
  destruct (db_users db !! userId) as [user|] eqn:Huser; [|apply levels_grow_refl].
  destruct (Z.gtb_spec (user_points user / 100 + 1) (user_level user)) as [Hgt|Hle];
    [|apply levels_grow_refl].
  intros uid u Hu. unfold user_update. rewrite Huser. simpl.
  destruct (decide (uid = userId)) as [->|Hne].
  - rewrite lookup_insert_eq. rewrite Huser in Hu. injection Hu as <-.
    eexists; split; [reflexivity|]. simpl. lia.
  - rewrite lookup_insert_ne by congruence. exists u. split; [exact Hu | lia].
Qed.

Lemma keeps_levels_calculateAndAwardPoints (prId : string) :
  keeps_levels (calculateAndAwardPoints prId).
Proof.
  unfold calculateAndAwardPoints. apply keeps_levels_get. intros d.
  destruct (db_pullRequests d !! prId) as [pr|]; [|apply keeps_levels_ret].
  destruct (pr_overallScore pr) as [score|]; [|apply keeps_levels_ret].
  destruct (Qeq_bool score 0); [apply keeps_levels_ret|].
  destruct (db_repositories d !! pr_repositoryId pr) as [repo|];
    [|apply keeps_levels_throw].
  case_decide; [apply keeps_levels_ret|].
  apply keeps_levels_bind;
    [apply keeps_levels_user_update; intros u; simpl; lia | intros _].
  apply keeps_levels_bind;
    [apply keeps_levels_users; intros db; reflexivity | intros _].
  apply keeps_levels_bind;
    [apply keeps_levels_users; intros db; unfold pr_update;
     destruct (db_pullRequests db !! prId); reflexivity | intros _].
  apply keeps_levels_checkAndUpdateUserLevel.
Qed.

Lemma keeps_levels_awardPointsForReview (userId prId reviewState : string) :
  keeps_levels (awardPointsForReview userId prId reviewState).
Proof.
  unfold awardPointsForReview.
  destruct (Z.gtb (reviewStatePoints reviewState) 0); [|apply keeps_levels_ret].
  apply keeps_levels_get. intros d.
  destruct (db_pullRequests d !! prId) as [pr|]; [|apply keeps_levels_ret].
  destruct (db_repositories d !! pr_repositoryId pr) as [repo|];
    [|apply keeps_levels_throw].
  apply keeps_levels_bind;
    [apply keeps_levels_user_update; intros u; simpl; lia | intros _].
  apply keeps_levels_bind;
    [apply keeps_levels_users; intros db; reflexivity | intros _].
  apply keeps_levels_checkAndUpdateUserLevel.
Qed.

Lemma keeps_levels_ensureUserExists (userId login accountId : string) :
  keeps_levels (ensureUserExists userId login accountId).
Proof.
  unfold ensureUserExists. apply keeps_levels_get. intros d.
  apply keeps_levels_bind.
  { destruct (db_accounts d !! accountId);
      [apply keeps_levels_ret | apply keeps_levels_users; reflexivity]. }
  intros _. apply keeps_levels_get. intros d'.
  assert (Hmem : keeps_levels (membership_create userId accountId)).
  { apply keeps_levels_users. intros db. unfold membership_create.
    case_decide; reflexivity. }
  destruct (db_users d' !! userId).
  - case_decide; [apply keeps_levels_ret | exact Hmem].
  - apply keeps_levels_bind; [apply keeps_levels_user_create | intros _; exact Hmem].
Qed.

Lemma keeps_levels_run_op (o : LedgerOp) : keeps_levels (run_op o).
Proof.
  destruct o; simpl.
  - apply keeps_levels_calculateAndAwardPoints.
  - apply keeps_levels_awardPointsForReview.
  - apply keeps_levels_ensureUserExists.
  - apply keeps_levels_checkAndUpdateUserLevel.
Qed.

(** C9: the level check computes [floor(points / 100) + 1] and writes it
    only when it exceeds the stored level; over any sequence of merge
    awards, review awards, user registrations and level checks (each
    ending normally or with an exception) no user's level decreases. *)
Theorem user_level_monotonic :
  (forall userId accountId u db, db_users db !! userId = Some u ->
     checkAndUpdateUserLevel userId accountId db =
       Done tt (if Z.gtb (Z.div (user_points u) 100 + 1) (user_level u)
                then set_users (<[userId := set_level
                                   (Z.div (user_points u) 100 + 1) u]>) db
                else db)) /\
  (forall (os : list LedgerOp) db uid u, db_users db !! uid = Some u ->
     exists u', db_users (run_ops os db) !! uid = Some u' /\
                (user_level u <= user_level u')%Z).
Proof.
  split.
  - intros userId accountId u db Hu.
    unfold checkAndUpdateUserLevel, mbind, M_bind, get. rewrite Hu.
    destruct (Z.gtb _ _); [|reflexivity].
    unfold user_update. rewrite Hu. reflexivity.
  - intros os. induction os as [|o os IH]; intros db uid u Hu; simpl.
    + exists u. split; [exact Hu | lia].
    + destruct (keeps_levels_run_op o db uid u Hu) as [u1 [Hu1 Hl1]].
      destruct (IH _ uid u1 Hu1) as [u2 [Hu2 Hl2]].
      exists u2. split; [exact Hu2 | lia].
Qed.

(** ** Commit linker *)

Lemma list_min_spec (l : list Z) (t : Z) :
  list_min l = Some t -> t ∈ l /\ Forall (fun x => (t <= x)%Z) l.
Proof.
  revert t; induction l as [|x l IH]; intros t H; simpl in H; [discriminate|].
  destruct (list_min l) as [m|] eqn:Hm.
  - injection H as <-. destruct (IH m eq_refl) as [Hin Hall].
    split.
    + destruct (Z.min_spec x m) as [[_ ->]|[_ ->]];
        [left | right; exact Hin].
    + constructor; [lia|]. eapply Forall_impl; [exact Hall|]. simpl; lia.
  - injection H as <-. destruct l as [|y l]; [|simpl in Hm; destruct (list_min l); discriminate].
    split; [left | constructor; [lia | constructor]].
Qed.

Lemma list_min_nonempty (l : list Z) : l <> [] -> exists t, list_min l = Some t.
Proof.
  destruct l as [|x l]; [congruence|]. intros _. simpl.
  destruct (list_min l); eexists; reflexivity.
Qed.

Lemma linkedCommitTimes_spec (db : DB) (prId : string) (t : Z) :
  t ∈ linkedCommitTimes db prId <->
  exists cid c, linked db prId cid c /\ commit_committedAt c = t.
Proof.
  unfold linkedCommitTimes, linked. rewrite list_elem_of_omap. split.
  - intros [[p cid] [Hin Hf]]. rewrite elem_of_elements in Hin. simpl in Hf.
    case_decide as Hp; [|discriminate]. subst p.
    destruct (db_commits db !! cid) as [c|] eqn:Hc; simpl in Hf; [|discriminate].
    injection Hf as <-. exists cid, c. auto.
  - intros (cid & c & [Hin Hc] & <-). exists (prId, cid).
    rewrite elem_of_elements. split; [exact Hin|]. simpl.
    rewrite decide_True by reflexivity. rewrite Hc. reflexivity.
Qed.

Lemma resolveAuthor_ok (ad : AuthorData) (accountId now : string) (db : DB) :
  exists uid users',
    resolveAuthor ad accountId now db = Done uid (set_users (fun _ => users') db).
Proof.
  unfold resolveAuthor, mbind, M_bind, get.
  destruct (list_find _ _) as [[i [uid v]]|] eqn:Hf.
  - exists uid, (db_users db). destruct db; reflexivity.
  - apply list_find_None in Hf. rewrite Forall_forall in Hf.
    unfold user_create.
    match goal with |- context [db_users db !! ?k] =>
      destruct (db_users db !! k) as [w|] eqn:Hw end.
    + exfalso. destruct (ad_id ad) as [i|] eqn:Hid.
      * apply (Hf (i, w)); [now apply elem_of_map_to_list|].
        unfold author_matches. rewrite Hid. simpl. now rewrite String.eqb_refl.
      * apply (Hf (("commit-author-" ++ now)%string, w));
          [now apply elem_of_map_to_list|].
        unfold author_matches. rewrite Hid. reflexivity.
    + eexists _, _. unfold mbind, M_bind, mret, M_ret. reflexivity.
Qed.

Lemma linkOne_ok (prId now : string) (pr : PullRequest) (repo : Repository)
    (cd : CommitData) (db : DB) :
  db_pullRequests db !! prId = Some pr ->
  db_repositories db !! pr_repositoryId pr = Some repo ->
  exists db', linkOne prId now cd db = Done tt db' /\
    db_pullRequests db' = db_pullRequests db /\
    db_repositories db' = db_repositories db /\
    db_prCommits db ⊆ db_prCommits db' /\
    (forall k c, db_commits db !! k = Some c -> db_commits db' !! k = Some c) /\
    (is_Some (db_commits db !! cd_sha cd) \/
     is_Some (or_else (cd_author cd) (cd_commit_author cd)) ->
     exists c, linked db' prId (cd_sha cd) c).
Proof.
  intros Hpr Hrepo.
  destruct db as [acc repos users mem prs cs links files txs]; simpl in *.
  unfold linkOne, mbind, M_bind, mret, M_ret, get; simpl.
  destruct (cs !! cd_sha cd) as [c|] eqn:Hc.
  - case_decide as Hl.
    + eexists; split; [reflexivity|]. simpl.
      repeat split; auto. intros _. exists c. split; assumption.
    + unfold pr_connect_commit; simpl. rewrite Hpr.
      eexists; split; [reflexivity|]. simpl.
      repeat split; auto; [set_solver|].
      intros _. exists c. split; [set_solver | exact Hc].
  - rewrite Hpr, Hrepo.
    destruct (or_else (cd_author cd) (cd_commit_author cd)) as [ad|] eqn:Had.
    + destruct (resolveAuthor_ok ad (repo_accountId repo) now
                  (mkDB acc repos users mem prs cs links files txs))
        as [uid [users' Hr]].
      rewrite Hr. unfold commit_create, set_users; simpl. rewrite Hc.
      eexists; split; [reflexivity|]. simpl.
      repeat split; auto; [set_solver | |].
      * intros k c' Hk. destruct (decide (k = cd_sha cd)) as [->|Hne];
          [congruence | rewrite lookup_insert_ne by congruence; exact Hk].
      * intros _. eexists. split; [set_solver | apply lookup_insert_eq].
    + eexists; split; [reflexivity|]. simpl.
      repeat split; auto.
      intros [[x Hx] | [x Hx]]; discriminate.
Qed.

Lemma forM_linkOne_ok (prId now : string) (pr : PullRequest) (repo : Repository)
    (cds : list CommitData) (db : DB) :
  db_pullRequests db !! prId = Some pr ->
  db_repositories db !! pr_repositoryId pr = Some repo ->
  exists db', forM_ cds (linkOne prId now) db = Done tt db' /\
    db_pullRequests db' = db_pullRequests db /\
    db_prCommits db ⊆ db_prCommits db' /\
    (forall k c, db_commits db !! k = Some c -> db_commits db' !! k = Some c) /\
    (forall cd, cd ∈ cds ->
       is_Some (db_commits db !! cd_sha cd) \/
       is_Some (or_else (cd_author cd) (cd_commit_author cd)) ->
       exists c, linked db' prId (cd_sha cd) c).
Proof.
  revert db; induction cds as [|cd cds IH]; intros db Hpr Hrepo; simpl.
  - eexists; split; [reflexivity|]. repeat split; auto.
    intros cd Hin. apply elem_of_nil in Hin. contradiction.
  - destruct (linkOne_ok prId now pr repo cd db Hpr Hrepo)
      as (db1 & H1 & Hprs1 & Hrepos1 & Hl1 & Hc1 & Hlink1).
    unfold mbind, M_bind. rewrite H1.
    destruct (IH db1) as (db2 & H2 & Hprs2 & Hl2 & Hc2 & Hlink2);
      [congruence | congruence |].
    exists db2. split; [exact H2|].
    split; [congruence|]. split; [set_solver|]. split; [auto|].
    intros cd' Hin Hcond. apply elem_of_cons in Hin as [->|Hin].
    + destruct (Hlink1 Hcond) as [c [Hin1 Hc]]. exists c.
      split; [set_solver | auto].
    + apply Hlink2; [exact Hin|].
      destruct Hcond as [[c Hc]|Ha]; [left; exists c; auto | right; exact Ha].
Qed.

(** C8 (amended): when the GitHub answer is a non-empty commit list for
    an existing PR, every listed commit that is known locally or carries
    author data ends up linked to the PR, and whenever the PR has a
    linked commit afterwards its [firstCommitAt] is the least
    [committedAt] over all commits linked to it.  When the answer is empty
    or the request fails, the function returns at once and the store,
    links and [firstCommitAt] included, is left as it was. *)
Theorem linkCommitsToPullRequest_firstCommitAt (prId now : string) (db : DB) :
  (forall (cds : list CommitData) (pr : PullRequest) (repo : Repository),
   cds <> [] ->
   db_pullRequests db !! prId = Some pr ->
   db_repositories db !! pr_repositoryId pr = Some repo ->
   let db' := final_db (linkCommitsToPullRequest prId (Some cds) now db) in
   (forall cd, cd ∈ cds ->
      is_Some (db_commits db !! cd_sha cd) \/
      is_Some (or_else (cd_author cd) (cd_commit_author cd)) ->
      exists c, linked db' prId (cd_sha cd) c) /\
   ((exists cid c, linked db' prId cid c) ->
    exists pr' t, db_pullRequests db' !! prId = Some pr' /\
      pr_firstCommitAt pr' = Some t /\
      (exists cid c, linked db' prId cid c /\ commit_committedAt c = t) /\
      (forall cid c, linked db' prId cid c -> (t <= commit_committedAt c)%Z))) /\
  (forall prCommits, prCommits = None \/ prCommits = Some [] ->
   linkCommitsToPullRequest prId prCommits now db = Done tt db).
Proof.
  split; [|intros pc [-> | ->]; reflexivity].
  intros cds pr repo Hne Hpr Hrepo db'. subst db'.
  destruct (forM_linkOne_ok prId now pr repo cds db Hpr Hrepo)
    as (db1 & H1 & Hprs1 & Hl1 & Hc1 & Hlink1).
  destruct cds as [|cd0 cds0]; [congruence|].
  unfold linkCommitsToPullRequest, catch, mbind, M_bind.
  rewrite H1. unfold get.
  destruct (list_min (linkedCommitTimes db1 prId)) as [t|] eqn:Hmin.
  - unfold pr_update. rewrite Hprs1, Hpr. simpl.
    assert (Hlk : forall cid c, linked (set_pullRequests
                    (<[prId := set_firstCommitAt t pr]>) db1) prId cid c <->
                  linked db1 prId cid c).
    { intros cid c. destruct db1; reflexivity. }
    split.
    + intros cd Hin Hcond. destruct (Hlink1 cd Hin Hcond) as [c Hc].
      exists c. apply Hlk. exact Hc.
    + intros _. exists (set_firstCommitAt t pr), t.
      split; [destruct db1; apply lookup_insert_eq|]. split; [reflexivity|].
      destruct (list_min_spec _ _ Hmin) as [Hin Hall].
      split.
      * apply linkedCommitTimes_spec in Hin as (cid & c & Hl & Ht).
        exists cid, c. split; [apply Hlk; exact Hl | exact Ht].
      * intros cid c Hl. apply Hlk in Hl.
        rewrite Forall_forall in Hall. apply Hall.
        apply linkedCommitTimes_spec. exists cid, c. split; [exact Hl | reflexivity].
  - simpl. split; [exact Hlink1|].
    intros (cid & c & Hl). exfalso.
    assert (Hin : commit_committedAt c ∈ linkedCommitTimes db1 prId)
      by (apply linkedCommitTimes_spec; exists cid, c; split; [exact Hl | reflexivity]).
    destruct (list_min_nonempty (linkedCommitTimes db1 prId)) as [t Ht];
      [intros Hnil; rewrite Hnil in Hin; apply elem_of_nil in Hin; exact Hin|].
    congruence.
Qed.

Lemma linkCommitsToPullRequest_firstCommitAt_witness :
  sample_commits <> [] /\
  db_pullRequests sample_db !! "p1"%string = Some sample_pr /\
  db_repositories sample_db !! pr_repositoryId sample_pr =
    Some (mkRepository "repo" "org/repo" "a1") /\
  (let db' := final_db (linkCommitsToPullRequest "p1" (Some sample_commits) "1700000000000" sample_db) in
   (forall cd, cd ∈ sample_commits ->
      is_Some (db_commits sample_db !! cd_sha cd) \/
      is_Some (or_else (cd_author cd) (cd_commit_author cd)) ->
      exists c, linked db' "p1" (cd_sha cd) c) /\
   ((exists cid c, linked db' "p1" cid c) ->
    exists pr' t, db_pullRequests db' !! "p1"%string = Some pr' /\
      pr_firstCommitAt pr' = Some t /\
      (exists cid c, linked db' "p1" cid c /\ commit_committedAt c = t) /\
      (forall cid c, linked db' "p1" cid c -> (t <= commit_committedAt c)%Z))) /\
  linkCommitsToPullRequest "p1" None "1700000000000" sample_db_linked
    = Done tt sample_db_linked.
Proof.
  split; [discriminate|]. split; [reflexivity|]. split; [reflexivity|].
  split.
  - destruct (linkCommitsToPullRequest_firstCommitAt "p1" "1700000000000" sample_db)
      as [Hok _].
    apply (Hok sample_commits sample_pr (mkRepository "repo" "org/repo" "a1"));
      [discriminate | reflexivity | reflexivity].
  - destruct (linkCommitsToPullRequest_firstCommitAt "p1" "1700000000000"
                sample_db_linked) as [_ Hnone].
    apply Hnone. left. reflexivity.
Defined.

(** The spec's scenario: of three upstream commits one is local and two
    are not; afterwards all three are linked and [firstCommitAt] is 30,
    the earliest of 50, 30 and 40. *)
Example link_three_commits :
  let db' := final_db (linkCommitsToPullRequest "p1" (Some sample_commits)
                         "1700000000000" sample_db) in
  elements (filter (fun l : string * string => l.1 = "p1"%string) (db_prCommits db'))
    ≡ₚ [("p1", "c1"); ("p1", "c2"); ("p1", "c3")]%string /\
  option_map pr_firstCommitAt (db_pullRequests db' !! "p1"%string) = Some (Some 30%Z).
Proof. split; [vm_compute; solve_Permutation | vm_compute; reflexivity]. Qed.

(** C8 (counterexample): c1 is linked to p1 but no [firstCommitAt] was
    recorded; an empty commit answer returns early and leaves it unset. *)
Lemma linkCommitsToPullRequest_empty_answer_stale :
  let db' := final_db (linkCommitsToPullRequest "p1" (Some []) "1700000000000"
                         sample_db_linked) in
  linked db' "p1" "c1" (mkCommit "init" "u1" "r1" 50) /\
  exists pr', db_pullRequests db' !! "p1"%string = Some pr' /\
              pr_firstCommitAt pr' = None.
Proof.
  simpl. split.
  - split; [set_solver | reflexivity].
  - eexists; split; reflexivity.
Qed.

(* ------------------------------------------------------------------ *)
(** ** Repositories, reviewers, reviews, comments, labels, descriptions
    and pushes *)

Lemma split_on_slash_app (owner rest : string) :
  ~ In "/"%char (list_ascii_of_string owner) ->
  split_on "/" (owner ++ String "/" rest) = owner :: split_on "/" rest.
Proof.
  induction owner as [|c o IH]; intros Hno; simpl.
  - reflexivity.
  - simpl in Hno. rewrite IH by tauto.
    destruct (Ascii.eqb_spec c "/"); [tauto|reflexivity].
Qed.

Lemma split_on_no_slash (s : string) :
  ~ In "/"%char (list_ascii_of_string s) -> split_on "/" s = [s].
Proof.
  induction s as [|c s IH]; intros Hno; simpl.
  - reflexivity.
  - simpl in Hno. rewrite IH by tauto.
    destruct (Ascii.eqb_spec c "/"); [tauto|reflexivity].
Qed.

Lemma ensureRepositoryExists_ok (repoId owner name accountId : string)
    (db : DB) :
  ~ In "/"%char (list_ascii_of_string owner) ->
  ~ In "/"%char (list_ascii_of_string name) ->
  exists db',
    ensureRepositoryExists repoId (owner ++ "/" ++ name) accountId db = Done tt db' /\
    db_accounts db' !! accountId =
      Some (default (mkAccount owner ORGANIZATION "unknown")
                    (db_accounts db !! accountId)) /\
    db_repositories db' !! repoId =
      Some (default (mkRepository name (owner ++ "/" ++ name) accountId)
                    (db_repositories db !! repoId)).
Proof.
  intros Ho Hn.
  destruct db as [acc repos users mem prs cs links files txs].
  unfold ensureRepositoryExists, mbind, M_bind, mret, M_ret, get, modify; simpl.
  assert (Hs : split_on "/" (owner ++ "/" ++ name) = [owner; name]).
  { change ("/" ++ name)%string with (String "/" name).
    rewrite split_on_slash_app, split_on_no_slash by assumption. reflexivity. }
  rewrite Hs.
  destruct (acc !! accountId) as [a|] eqn:Ha; simpl;
  destruct (repos !! repoId) as [r|] eqn:Hr; simpl;
  eexists; (split; [reflexivity|]); simpl;
  rewrite ?lookup_insert_eq, ?Ha, ?Hr; auto.
Qed.

Lemma ensureRepositoryExists_rows (repoId fullName accountId : string)
    (db : DB) :
  let db' := final_db (ensureRepositoryExists repoId fullName accountId db) in
  (forall k a, db_accounts db !! k = Some a -> db_accounts db' !! k = Some a) /\
  (forall k r, db_repositories db !! k = Some r -> db_repositories db' !! k = Some r) /\
  db_users db' = db_users db /\
  db_memberships db' = db_memberships db /\
  db_pullRequests db' = db_pullRequests db /\
  db_commits db' = db_commits db /\
  db_prCommits db' = db_prCommits db /\
  db_prFiles db' = db_prFiles db /\
  db_pointTransactions db' = db_pointTransactions db.
Proof.
  destruct db as [acc repos users mem prs cs links files txs].
  unfold ensureRepositoryExists, mbind, M_bind, mret, M_ret, get, modify, throw; simpl.
  destruct (acc !! accountId) as [a|] eqn:Ha; simpl;
  destruct (repos !! repoId) as [r|] eqn:Hr; simpl;
  try destruct (split_on "/" fullName !! 1); simpl;
  repeat split; auto; intros k x Hk;
  rewrite ?lookup_insert_ne; auto; intros <-; congruence.
Qed.

(** X3: once [ensureRepositoryExists] has succeeded, calling it again for
    the same repository and account changes nothing, whatever full name
    the later call passes. *)
Theorem ensureRepositoryExists_idempotent (repoId fullName fullName' accountId : string)
    (db db' : DB) :
  ensureRepositoryExists repoId fullName accountId db = Done tt db' ->
  ensureRepositoryExists repoId fullName' accountId db' = Done tt db'.
Proof.
  destruct db as [acc repos users mem prs cs links files txs].
  unfold ensureRepositoryExists, mbind, M_bind, mret, M_ret, get, modify, throw; simpl.
  destruct (acc !! accountId) as [a|] eqn:Ha; simpl;
  destruct (repos !! repoId) as [r|] eqn:Hr; simpl;
  try destruct (split_on "/" fullName !! 1); simpl;
  intros H; inversion H; subst; simpl;
  rewrite ?lookup_insert_eq, ?Ha, ?Hr; simpl;
  rewrite ?lookup_insert_eq, ?Ha, ?Hr; simpl; reflexivity.
Qed.

(** X4: on an existing PR and an existing user, [addReviewerToPullRequest]
    succeeds; afterwards the reviewer is listed, the earlier list is a
    prefix of the new one, and no other id was added. *)
Theorem addReviewerToPullRequest_listed (prId reviewerId : string) (db : DB)
    (pr : PullRequest) (u : User) :
  db_pullRequests db !! prId = Some pr ->
  db_users db !! reviewerId = Some u ->
  exists db' pr',
    addReviewerToPullRequest prId reviewerId db = Done tt db' /\
    db_pullRequests db' !! prId = Some pr' /\
    reviewerId ∈ pr_reviewerIds pr' /\
    pr_reviewerIds pr `prefix_of` pr_reviewerIds pr' /\
    (forall r, r ∈ pr_reviewerIds pr' -> r = reviewerId \/ r ∈ pr_reviewerIds pr).
Proof.
  intros Hpr Hu.
  destruct db as [acc repos users mem prs cs links files txs]; simpl in *.
  unfold addReviewerToPullRequest, mbind, M_bind, mret, M_ret, get, pr_update; simpl.
  rewrite Hpr.
  case_bool_decide as Hin.
  - exists (mkDB acc repos users mem prs cs links files txs), pr.
    repeat split; auto.
  - rewrite Hu; simpl. rewrite Hpr.
    eexists _, _; split; [reflexivity|]; simpl.
    rewrite lookup_insert_eq. split; [reflexivity|]; simpl.
    split; [set_solver|]. split; [by eexists|].
    intros r Hr. apply elem_of_app in Hr as [Hr|Hr]; [by right|left; set_solver].
Qed.

(** X5: if no PR of the store lists a reviewer twice, the same holds after
    [addReviewerToPullRequest], whatever its outcome. *)
Theorem addReviewerToPullRequest_nodup (prId reviewerId : string) (db : DB) :
  (forall k p, db_pullRequests db !! k = Some p -> NoDup (pr_reviewerIds p)) ->
  forall k p,
    db_pullRequests (final_db (addReviewerToPullRequest prId reviewerId db)) !! k
      = Some p ->
    NoDup (pr_reviewerIds p).
Proof.
  intros Hnd k p.
  destruct db as [acc repos users mem prs cs links files txs]; simpl in *.
  unfold addReviewerToPullRequest, mbind, M_bind, mret, M_ret, get, pr_update, throw;
    simpl.
  destruct (prs !! prId) as [pr|] eqn:Hpr; simpl; [|apply Hnd].
  case_bool_decide as Hin; simpl; [apply Hnd|].
  destruct (users !! reviewerId); simpl; [|apply Hnd].
  rewrite Hpr; simpl.
  destruct (decide (k = prId)) as [->|Hne].
  - rewrite lookup_insert_eq. intros [= <-]; simpl.
    apply NoDup_app. split; [eapply Hnd; eassumption|]. split.
    + intros x Hx Hx'. apply list_elem_of_singleton in Hx'. subst. contradiction.
    + apply NoDup_singleton.
  - rewrite lookup_insert_ne by congruence. apply Hnd.
Qed.

(** X6: [addReviewerToPullRequest] throws only when the reviewer has no
    user row, with the connect error, and then leaves the store as it was. *)
Theorem addReviewerToPullRequest_throw_atomic (prId reviewerId : string)
    (db db' : DB) (e : string) :
  addReviewerToPullRequest prId reviewerId db = Thrown e db' ->
  db' = db /\ e = connect_failed /\ db_users db !! reviewerId = None.
Proof.
  destruct db as [acc repos users mem prs cs links files txs]; simpl in *.
  unfold addReviewerToPullRequest, mbind, M_bind, mret, M_ret, get, pr_update, throw;
    simpl.
  destruct (prs !! prId) as [pr|] eqn:Hpr; simpl; [|discriminate].
  case_bool_decide as Hin; [discriminate|].
  destruct (users !! reviewerId) eqn:Hu; simpl.
  - rewrite Hpr. discriminate.
  - intros Heq; inversion Heq; auto.
Qed.

(** X7: replaying a stored review ([storeReview] with the same review
    object) leaves the review table as it is; an existing review keeps its
    PR and author, and no other review row is touched. *)
Theorem storeReview_replay (db db2 : DB) (reviews reviews' : gmap string Review)
    (review : ReviewData) (prId reviewerId prId2 reviewerId2 : string) :
  storeReview db reviews review prId reviewerId = Some reviews' ->
  storeReview db2 reviews' review prId2 reviewerId2 = Some reviews' /\
  (forall r, reviews !! rd_id review = Some r ->
     exists r', reviews' !! rd_id review = Some r' /\
       rv_pullRequestId r' = rv_pullRequestId r /\ rv_authorId r' = rv_authorId r) /\
  (forall k, k <> rd_id review -> reviews' !! k = reviews !! k).
Proof.
  unfold storeReview.
  destruct (reviews !! rd_id review) as [r|] eqn:Hr.
  - intros [= <-]. rewrite lookup_insert_eq. split; [|split].
    + f_equal. apply insert_insert_eq.
    + intros r0 [= <-]. eexists; split; [reflexivity|]; auto.
    + intros k Hk. apply lookup_insert_ne. congruence.
  - destruct (db_pullRequests db !! prId), (db_users db !! reviewerId);
      try discriminate.
    intros [= <-]. rewrite lookup_insert_eq. split; [|split].
    + f_equal. apply insert_insert_eq.
    + intros r0 Hr0. congruence.
    + intros k Hk. apply lookup_insert_ne. congruence.
Qed.

(** X8: for a sentiment score in [0, 1], the score [storeComment] returns
    and stores is in [0, 1], at most the sentiment, and at most 1/2 for an
    offensive comment; an existing comment keeps its PR, author and
    creation time. *)
Theorem storeComment_score (db : DB) (comments comments' : gmap string Comment)
    (comment : CommentData) (prId authorId : string) (s : Q) (off : bool)
    (now : Z) (a : Q) :
  (0 <= s <= 1)%Q ->
  storeComment db comments comment prId authorId s off now = Some (comments', a) ->
  (0 <= a <= 1)%Q /\ (a <= s)%Q /\ (off = true -> (a <= 1 # 2)%Q) /\
  exists c', comments' !! co_id comment = Some c' /\
    cm_sentimentScore c' = a /\ cm_body c' = default "" (co_body comment) /\
    (forall c, comments !! co_id comment = Some c ->
       cm_pullRequestId c' = cm_pullRequestId c /\ cm_authorId c' = cm_authorId c /\
       cm_createdAt c' = cm_createdAt c).
Proof.
  intros [Hs0 Hs1]. unfold storeComment.
  assert (Hb : forall a', a' = (if off then Qmax 0 (s - (1 # 2)) else s) ->
            (0 <= a' <= 1)%Q /\ (a' <= s)%Q /\ (off = true -> (a' <= 1 # 2)%Q)).
  { intros a' ->. destruct off.
    - destruct (Q.max_spec 0 (s - (1 # 2))) as [[H1 H2]|[H1 H2]]; rewrite H2;
        repeat split; intros; lra.
    - repeat split; intros; try lra; discriminate. }
  destruct (comments !! co_id comment) as [c|] eqn:Hc.
  - intros [= <- <-]. split; [|split; [|split]]; try apply Hb; auto.
    eexists; rewrite lookup_insert_eq; split; [reflexivity|]; simpl.
    split; [reflexivity|]. split; [reflexivity|].
    intros c0 [= <-]. auto.
  - destruct (db_pullRequests db !! prId), (db_users db !! authorId);
      try discriminate.
    intros [= <- <-]. split; [|split; [|split]]; try apply Hb; auto.
    eexists; rewrite lookup_insert_eq; split; [reflexivity|]; simpl.
    split; [reflexivity|]. split; [reflexivity|].
    intros c0 Hc0. congruence.
Qed.

Lemma filter_ext_in {A} (P1 P2 : A -> Prop)
    `{!forall x, Decision (P1 x), !forall x, Decision (P2 x)} (l : list A) :
  (forall x, x ∈ l -> (P1 x <-> P2 x)) -> filter P1 l = filter P2 l.
Proof.
  induction l as [|y l IH]; intros Hl; [done|].
  assert (Hy : P1 y <-> P2 y) by (apply Hl; set_solver).
  assert (IH' : filter P1 l = filter P2 l) by (apply IH; intros x Hx; apply Hl; set_solver).
  destruct (decide (P1 y)).
  - rewrite !filter_cons_True by tauto. by rewrite IH'.
  - rewrite !filter_cons_False by tauto. by rewrite IH'.
Qed.

Lemma remove_labels (names ls : list string) :
  apply_label_calls ls (map RemoveLabel names) = filter (fun m => m ∉ names) ls.
Proof.
  unfold apply_label_calls.
  revert ls; induction names as [|n names IH]; intros ls; simpl.
  - symmetry. rewrite (list_filter_iff _ (fun _ => True)) by set_solver.
    induction ls; [done|]. rewrite filter_cons_True by done. congruence.
  - rewrite IH, list_filter_filter. apply list_filter_iff. set_solver.
Qed.

Lemma generateScoreLabelProps_isScoreLabel (score : Q) :
  isScoreLabel (lp_name (generateScoreLabelProps score)) = true.
Proof.
  unfold generateScoreLabelProps.
  repeat match goal with |- context [if ?b then _ else _] => destruct b end;
  reflexivity.
Qed.

(** X11: after the label requests of [addScoreLabelToPR] have been applied to
    the labels it read, the PR carries exactly one Wellcode score label, the
    new one, and every other label is kept. *)
Theorem addScoreLabelToPR_single_score_label (ls : list string) (score : Q) :
  let ls' := apply_label_calls ls (addScoreLabelToPR (Some ls) score) in
  filter (fun n => isScoreLabel n = true) ls' =
    [lp_name (generateScoreLabelProps score)] /\
  filter (fun n => isScoreLabel n = false) ls' =
    filter (fun n => isScoreLabel n = false) ls.
Proof.
  simpl. unfold apply_label_calls. rewrite fold_left_app.
  change (fold_left apply_label_call
            (map RemoveLabel (filter (fun n => isScoreLabel n = true) ls)) ls)
    with (apply_label_calls ls
            (map RemoveLabel (filter (fun n => isScoreLabel n = true) ls))).
  rewrite remove_labels. simpl.
  set (name := lp_name (generateScoreLabelProps score)).
  pose proof (generateScoreLabelProps_isScoreLabel score) as Hname.
  fold name in Hname.
  set (L := filter (fun n => isScoreLabel n = true) ls).
  assert (Hnone : filter (fun n => isScoreLabel n = true)
                    (filter (fun m => m ∉ L) ls) = []).
  { rewrite list_filter_filter.
    rewrite (filter_ext_in _ (fun _ => False)).
    - induction ls as [|y l IH]; [done|]. rewrite filter_cons_False by tauto. done.
    - intros x Hx. split; [|done]. intros [Hs Hn]. apply Hn.
      apply list_elem_of_filter. auto. }
  assert (Hkeep : filter (fun n => isScoreLabel n = false)
                    (filter (fun m => m ∉ L) ls) =
                  filter (fun n => isScoreLabel n = false) ls).
  { rewrite list_filter_filter. apply list_filter_iff. intros x. split.
    - tauto.
    - intros Hs. split; [done|]. intros Hx. apply list_elem_of_filter in Hx.
      destruct Hx as [Hx _]. congruence. }
  case_bool_decide as Hin.
  - exfalso. assert (Hin' : name ∈ filter (fun n => isScoreLabel n = true)
                                    (filter (fun m => m ∉ L) ls))
      by (apply list_elem_of_filter; auto).
    rewrite Hnone in Hin'. set_solver.
  - rewrite !filter_app, Hnone, Hkeep. simpl.
    rewrite filter_cons_True by done. rewrite filter_cons_False by congruence.
    simpl. rewrite app_nil_r. auto.
Qed.



Lemma label_band_generate (score : Q) :
  label_band (generateScoreLabelProps score) =
    band_of (Z.max 0 (Z.min 100 (Math_round score))).
Proof.
  unfold generateScoreLabelProps, band_of.
  repeat match goal with |- context [if ?b then _ else _] => destruct b end;
  reflexivity.
Qed.

Lemma Math_round_mono (x y : Q) : (x <= y)%Q -> (Math_round x <= Math_round y)%Z.
Proof.
  intros H. unfold Math_round. apply Qfloor_resp_le. lra.
Qed.

(** X10: a higher score never gets a label of a lower band. *)
Theorem generateScoreLabelProps_band_monotone (s1 s2 : Q) :
  (s1 <= s2)%Q ->
  (label_band (generateScoreLabelProps s1) <= label_band (generateScoreLabelProps s2))%nat.
Proof.
  intros H. rewrite !label_band_generate.
  pose proof (Math_round_mono s1 s2 H) as Hr.
  set (n1 := Z.max 0 (Z.min 100 (Math_round s1))).
  set (n2 := Z.max 0 (Z.min 100 (Math_round s2))).
  assert (Hn : (n1 <= n2)%Z) by (unfold n1, n2; lia).
  clearbody n1 n2. unfold band_of. rewrite !Z.geb_leb.
  destruct (Z.leb_spec 90 n1), (Z.leb_spec 75 n1), (Z.leb_spec 60 n1),
    (Z.leb_spec 40 n1), (Z.leb_spec 90 n2), (Z.leb_spec 75 n2),
    (Z.leb_spec 60 n2), (Z.leb_spec 40 n2); lia.
Qed.

(** X9: the label name is a Wellcode score label that shows an integer in
    [0, 100] within 1/2 of the score, or the bound the score was clamped to. *)
Theorem generateScoreLabelProps_name (score : Q) :
  isScoreLabel (lp_name (generateScoreLabelProps score)) = true /\
  exists n category,
    (0 <= n <= 100)%Z /\
    (Qle (inject_Z n - (1 # 2)) score \/ n = 0%Z) /\
    (Qlt score (inject_Z n + (1 # 2)) \/ n = 100%Z) /\
    lp_name (generateScoreLabelProps score) =
      ("Wellcode Score: " ++ pretty n ++ " - " ++ category)%string.
Proof.
  split; [apply generateScoreLabelProps_isScoreLabel|].
  assert (Hlo : Qle (inject_Z (Math_round score)) (score + (1 # 2))) by apply Qfloor_le.
  assert (Hhi : Qlt (score + (1 # 2)) (inject_Z (Math_round score + 1)))
    by apply Qlt_floor.
  rewrite inject_Z_plus in Hhi.
  unfold generateScoreLabelProps.
  set (r := Math_round score) in *.
  set (n := Z.max 0 (Z.min 100 r)).
  assert (Hb : (0 <= n <= 100)%Z) by (unfold n; lia).
  assert (Hl : Qle (inject_Z n - (1 # 2)) score \/ n = 0%Z).
  { destruct (Z.le_gt_cases r 0) as [Hr|Hr]; [right; unfold n; lia|left].
    assert (Hnr : (n <= r)%Z) by (unfold n; lia).
    rewrite Zle_Qle in Hnr. lra. }
  assert (Hh : Qlt score (inject_Z n + (1 # 2)) \/ n = 100%Z).
  { destruct (Z.le_gt_cases 100 r) as [Hr|Hr]; [right; unfold n; lia|left].
    assert (Hnr : (r <= n)%Z) by (unfold n; lia).
    rewrite Zle_Qle in Hnr. change (inject_Z 1) with 1%Q in Hhi. lra. }
  clearbody n.
  exists n.
  repeat match goal with |- context [if ?b then _ else _] => destruct b end;
  eexists; (split; [exact Hb|]); (split; [exact Hl|]); (split; [exact Hh|]);
  reflexivity.
Qed.

(** X12: with an encryption whose ciphertexts are non-empty, recognised as
    encrypted and decrypted back, and a body that does not look encrypted,
    [getPRDescription] after [storePullRequest] returns [body || null]. *)
Theorem storePullRequest_getPRDescription
    (encryptContent decryptContent : string -> option string)
    (isEncrypted : string -> bool)
    (prData : PRData) (accountId repoId : string) (db db' : DB)
    (pr : PullRequest) :
  (forall x c, encryptContent x = Some c ->
     c <> ""%string /\ isEncrypted c = true /\ decryptContent c = Some x) ->
  (forall b, d_body prData = Some b -> isEncrypted b = false) ->
  storePullRequest encryptContent isEncrypted prData accountId repoId db = Done pr db' ->
  getPRDescription decryptContent isEncrypted (d_id prData) db' =
    Done (str_truthy (d_body prData)) db'.
Proof.
  intros Hrt Hplain.
  unfold storePullRequest, getPRDescription, str_truthy,
    mbind, M_bind, mret, M_ret, get, modify, throw.
  destruct (d_body prData) as [b|] eqn:Hb.
  - specialize (Hplain b eq_refl).
    destruct (String.eqb_spec b "") as [->|Hne].
    + intros Hs. inversion Hs; subst; simpl.
      rewrite lookup_insert_eq.
      destruct (db_pullRequests db !! d_id prData); reflexivity.
    + rewrite Hplain. simpl.
      destruct (match mapPRState (d_state prData) (d_merged prData) with
                | OPEN => false | _ => true end).
      * simpl. destruct (encryptContent b) as [c|] eqn:Hc; [|discriminate].
        destruct (Hrt b c Hc) as (Hc0 & Hce & Hcd).
        intros Hs. inversion Hs; subst; simpl.
        rewrite lookup_insert_eq.
        destruct (String.eqb_spec c "") as [->|_]; [congruence|].
        destruct (db_pullRequests db !! d_id prData); simpl;
          rewrite (proj2 (String.eqb_neq c "") Hc0), Hce; congruence.
      * simpl. intros Hs. inversion Hs; subst; simpl.
        rewrite lookup_insert_eq.
        destruct (db_pullRequests db !! d_id prData); simpl;
          rewrite (proj2 (String.eqb_neq b "") Hne), Hplain; reflexivity.
  - intros Hs. inversion Hs; subst; simpl.
    rewrite lookup_insert_eq.
    destruct (db_pullRequests db !! d_id prData); reflexivity.
Qed.

(** X13: under the same encryption assumption, [updatePullRequestStatus]
    never changes what [getPRDescription] returns, for any PR. *)
Theorem updatePullRequestStatus_keeps_description
    (encryptContent decryptContent : string -> option string)
    (isEncrypted : string -> bool)
    (prId : string) (state : PRState) (mergedAt : option Z) (closedAt : Z)
    (q : string) (db : DB) :
  (forall x c, encryptContent x = Some c ->
     c <> ""%string /\ isEncrypted c = true /\ decryptContent c = Some x) ->
  let db' := final_db (updatePullRequestStatus encryptContent isEncrypted
                         prId state mergedAt closedAt db) in
  exists v, getPRDescription decryptContent isEncrypted q db = Done v db /\
            getPRDescription decryptContent isEncrypted q db' = Done v db'.
Proof.
  intros Hrt db'. subst db'.
  destruct db as [acc repos users mem prs cs links files txs].
  unfold updatePullRequestStatus, getPRDescription,
    mbind, M_bind, mret, M_ret, get, pr_update; simpl.
  destruct (prs !! prId) as [pr|] eqn:Hpr; simpl; [|(repeat case_match; eauto)].
  rewrite Hpr; simpl.
  destruct (decide (q = prId)) as [->|Hne].
  2:{ rewrite lookup_insert_ne by congruence. (repeat case_match; eauto). }
  rewrite lookup_insert_eq, Hpr; simpl.
  destruct (pr_description pr) as [d|]; simpl; [|(repeat case_match; eauto)].
  destruct (String.eqb_spec d "") as [->|Hd]; simpl; [(repeat case_match; eauto)|].
  destruct (isEncrypted d) eqn:Hde; simpl.
  - rewrite (proj2 (String.eqb_neq d "") Hd), Hde. (repeat case_match; eauto).
  - destruct (encryptContent d) as [c|] eqn:Hc; simpl.
    + destruct (Hrt d c Hc) as (Hc0 & Hce & Hcd).
      rewrite (proj2 (String.eqb_neq c "") Hc0), Hce, Hcd. (repeat case_match; eauto).
    + rewrite (proj2 (String.eqb_neq d "") Hd), Hde. (repeat case_match; eauto).
Qed.

Lemma push_frame_refl (db : DB) : push_frame db db.
Proof. repeat split; eauto. Qed.

Lemma push_frame_trans (db1 db2 db3 : DB) :
  push_frame db1 db2 -> push_frame db2 db3 -> push_frame db1 db3.
Proof.
  intros (H1 & H2 & H3 & H4 & H5 & Hu & Hc) (G1 & G2 & G3 & G4 & G5 & Gu & Gc).
  repeat split; try congruence.
  - intros uid u Hu1. destruct (Hu uid u Hu1) as (u2 & Hu2 & ? & ? & ?).
    destruct (Gu uid u2 Hu2) as (u3 & Hu3 & ? & ? & ?).
    exists u3. repeat split; congruence.
  - intros k c Hc1. destruct (Hc k c Hc1) as (c2 & Hc2 & ?).
    destruct (Gc k c2 Hc2) as (c3 & Hc3 & ?).
    exists c3. split; congruence.
Qed.

Lemma catch_swallow (m : M unit) (db : DB) :
  catch m (fun _ => mret tt) db = Done tt (final_db (m db)).
Proof. unfold catch. destruct (m db) as [[]|]; reflexivity. Qed.

Lemma user_upsert_by_email_frame (email name uuid accountId login : string)
    (db : DB) :
  let db' := final_db (user_upsert_by_email email name uuid accountId login db) in
  push_frame db db' /\ db_accounts db' = db_accounts db /\
  db_repositories db' = db_repositories db /\ db_commits db' = db_commits db.
Proof.
  destruct db as [acc repos users mem prs cs links files txs].
  unfold user_upsert_by_email, set_users; simpl.
  destruct (list_find _ _) as [[i [uid u]]|] eqn:Hf; simpl.
  - apply list_find_Some in Hf as (Hi & _ & _).
    apply list_elem_of_lookup_2, elem_of_map_to_list in Hi.
    repeat split; auto.
    + intros uid' u' Hu'; simpl in *. destruct (decide (uid' = uid)) as [->|Hne].
      * rewrite lookup_insert_eq. eexists; split; [reflexivity|].
        rewrite Hu' in Hi. injection Hi as <-. auto.
      * rewrite lookup_insert_ne by congruence. eauto.
    + eauto.
  - destruct (users !! uuid) eqn:Hid; simpl; repeat split; auto.
    + eauto.
    + eauto.
    + intros uid' u' Hu'; simpl in *. destruct (decide (uid' = uuid)) as [->|Hne]; [congruence|].
      rewrite lookup_insert_ne by congruence. eauto.
    + eauto.
Qed.

Lemma commit_upsert_frame (commit : PushCommit) (repoId authorId : string)
    (now_ms : Z) (db : DB) :
  let db' := final_db (commit_upsert commit repoId authorId now_ms db) in
  push_frame db db' /\ db_accounts db' = db_accounts db /\
  db_repositories db' = db_repositories db /\ db_users db' = db_users db /\
  (forall k, k <> pc_id commit -> db_commits db' !! k = db_commits db !! k).
Proof.
  destruct db as [acc repos users mem prs cs links files txs].
  unfold commit_upsert, set_commits; simpl.
  destruct (cs !! pc_id commit) as [c|] eqn:Hc; simpl.
  - destruct (pc_timestamp commit) as [t|]; simpl.
    + repeat split; auto.
      * eauto.
      * intros k c' Hk; simpl in *. destruct (decide (k = pc_id commit)) as [->|Hne].
        -- rewrite lookup_insert_eq. eexists; split; [reflexivity|]. simpl. congruence.
        -- rewrite lookup_insert_ne by congruence. eauto.
      * intros k Hk; simpl. apply lookup_insert_ne. congruence.
    + repeat split; eauto.
  - repeat split; auto.
    + eauto.
    + intros k c' Hk; simpl in *. destruct (decide (k = pc_id commit)) as [->|Hne]; [congruence|].
      rewrite lookup_insert_ne by congruence. eauto.
    + intros k Hk; simpl. apply lookup_insert_ne. congruence.
Qed.

Lemma final_db_bind {A B} (m : M A) (k : A -> M B) (db : DB) :
  final_db ((x ← m; k x) db) =
    match m db with Done a db1 => final_db (k a db1) | Thrown _ db1 => db1 end.
Proof. unfold mbind, M_bind. destruct (m db); reflexivity. Qed.

Lemma author_commit_frame (A : M string) (commit : PushCommit) (repoId : string)
    (now_ms : Z) (db : DB) :
  (let db1 := final_db (A db) in
   push_frame db db1 /\ db_accounts db1 = db_accounts db /\
   db_repositories db1 = db_repositories db /\ db_commits db1 = db_commits db) ->
  let db' := final_db ((a ← A; commit_upsert commit repoId a now_ms) db) in
  push_frame db db' /\ db_accounts db' = db_accounts db /\
  db_repositories db' = db_repositories db /\
  (forall k, k <> pc_id commit -> db_commits db' !! k = db_commits db !! k).
Proof.
  intros HA. simpl. rewrite final_db_bind.
  destruct (A db) as [a db1|err db1]; simpl in HA;
    destruct HA as (F1 & A1 & R1 & C1).
  - destruct (commit_upsert_frame commit repoId a now_ms db1) as (F2 & A2 & R2 & U2 & C2).
    split; [eapply push_frame_trans; eassumption|].
    split; [congruence|]. split; [congruence|].
    intros k Hk. rewrite C2 by exact Hk. congruence.
  - split; [exact F1|]. split; [exact A1|]. split; [exact R1|].
    intros k _. congruence.
Qed.

Lemma author_step_frame (o : option string) (email name uuid accountId login : string)
    (db : DB) :
  let db' := final_db ((match o with
                        | Some uid => mret uid
                        | None => user_upsert_by_email email name uuid accountId login
                        end) db) in
  push_frame db db' /\ db_accounts db' = db_accounts db /\
  db_repositories db' = db_repositories db /\ db_commits db' = db_commits db.
Proof.
  destruct o as [uid|].
  - simpl. auto using push_frame_refl.
  - apply user_upsert_by_email_frame.
Qed.

Lemma processCommit_push_frame (commit : PushCommit) (repoId accountId uuid now : string)
    (now_ms : Z) (db : DB) :
  exists db',
    processCommit commit repoId accountId uuid now now_ms db = Done tt db' /\
    push_frame db db' /\
    db_accounts db' = db_accounts db /\
    db_repositories db' = db_repositories db /\
    (forall k, k <> pc_id commit -> db_commits db' !! k = db_commits db !! k) /\
    (str_truthy (pc_author_email commit) = None ->
     str_truthy (pc_author_name commit) = None -> db' = db).
Proof.
  unfold processCommit. rewrite catch_swallow.
  eexists; split; [reflexivity|].
  cbv zeta.
  destruct (str_truthy (pc_author_email commit)) as [e|] eqn:He;
  destruct (str_truthy (pc_author_name commit)) as [n|] eqn:Hn.
  4:{ simpl. split; [apply push_frame_refl|]. auto. }
  all: rewrite !final_db_bind; simpl;
  match goal with
  | |- push_frame ?d (final_db ((?A ≫= (fun a => commit_upsert ?c ?r a ?t)) ?d)) /\ _ =>
      destruct (author_commit_frame A c r t d) as (H1 & H2 & H3 & H4);
      [first [apply author_step_frame | apply user_upsert_by_email_frame]|]
  end;
  split; [exact H1|]; split; [exact H2|]; split; [exact H3|]; split; [exact H4|];
  intros ? ?; discriminate.
Qed.





Lemma user_by_email_spec (db : DB) (e uid : string) :
  user_by_email db e = Some uid ->
  exists u, db_users db !! uid = Some u /\ user_email u = Some e.
Proof.
  unfold user_by_email.
  destruct (list_find _ _) as [[i [uid' u]]|] eqn:Hf; [|discriminate].
  intros [= <-].
  apply list_find_Some in Hf as (Hi & He & _).
  apply list_elem_of_lookup_2, elem_of_map_to_list in Hi. eauto.
Qed.

Lemma user_upsert_by_email_ok (email name uuid accountId login : string) (db : DB) :
  db_users db !! uuid = None ->
  exists uid db1 u,
    user_upsert_by_email email name uuid accountId login db = Done uid db1 /\
    db_users db1 !! uid = Some u /\ user_email u = Some email /\
    db_commits db1 = db_commits db.
Proof.
  intros Hfresh. unfold user_upsert_by_email.
  destruct (list_find _ _) as [[i [uid u]]|] eqn:Hf.
  - apply list_find_Some in Hf as (_ & He & _). simpl in He.
    do 3 eexists. split; [reflexivity|]. simpl.
    rewrite lookup_insert_eq. split; [reflexivity|]. auto.
  - rewrite Hfresh. do 3 eexists. split; [reflexivity|]. simpl.
    rewrite lookup_insert_eq. auto.
Qed.

Lemma commit_upsert_ok (commit : PushCommit) (repoId authorId : string) (now_ms t : Z)
    (db : DB) :
  pc_timestamp commit = Some t ->
  exists c,
    commit_upsert commit repoId authorId now_ms db =
      Done tt (set_commits (<[pc_id commit := c]>) db) /\
    commit_committedAt c = t /\ commit_authorId c = authorId /\
    commit_repositoryId c =
      default repoId (commit_repositoryId <$> db_commits db !! pc_id commit).
Proof.
  intros Ht. unfold commit_upsert. rewrite Ht.
  destruct (db_commits db !! pc_id commit); simpl; eexists; split; eauto.
Qed.

(** X15: a push commit with author information and a timestamp is stored by
    [processCommit] (given a fresh generated user id) with that timestamp,
    an author that has a user row and, when an author email is given, that
    email; a commit already known keeps its repository. *)
Theorem processCommit_stores (commit : PushCommit) (repoId accountId uuid now : string)
    (now_ms t : Z) (db : DB) :
  (str_truthy (pc_author_email commit) <> None \/
   str_truthy (pc_author_name commit) <> None) ->
  pc_timestamp commit = Some t ->
  db_users db !! uuid = None ->
  exists db' c u,
    processCommit commit repoId accountId uuid now now_ms db = Done tt db' /\
    db_commits db' !! pc_id commit = Some c /\
    commit_committedAt c = t /\
    db_users db' !! commit_authorId c = Some u /\
    (forall e, str_truthy (pc_author_email commit) = Some e -> user_email u = Some e) /\
    commit_repositoryId c =
      default repoId (commit_repositoryId <$> db_commits db !! pc_id commit).
Proof.
  intros Hauth Ht Hfresh.
  unfold processCommit. rewrite catch_swallow. cbv zeta.
  assert (Hstep : forall (A : M string) (e : option string),
    (exists uid db1 u, A db = Done uid db1 /\ db_users db1 !! uid = Some u /\
       (forall e', e = Some e' -> user_email u = Some e') /\
       db_commits db1 = db_commits db) ->
    exists db' c u,
      Done tt (final_db ((a ← A; commit_upsert commit repoId a now_ms) db)) = Done tt db' /\
      db_commits db' !! pc_id commit = Some c /\ commit_committedAt c = t /\
      db_users db' !! commit_authorId c = Some u /\
      (forall e', e = Some e' -> user_email u = Some e') /\
      commit_repositoryId c =
        default repoId (commit_repositoryId <$> db_commits db !! pc_id commit)).
  { intros A e (uid & db1 & u & HA & Hu & He & Hc).
    rewrite final_db_bind, HA.
    destruct (commit_upsert_ok commit repoId uid now_ms t db1 Ht) as (c & Hcu & Ct & Ca & Cr).
    rewrite Hcu. do 3 eexists. split; [reflexivity|]. simpl.
    rewrite lookup_insert_eq. split; [reflexivity|].
    rewrite Ca. split; [exact Ct|]. split; [exact Hu|]. split; [exact He|].
    rewrite Cr, Hc. reflexivity. }
  assert (Hemail : forall e name login,
    exists uid db1 u,
      (match user_by_email db e with
       | Some uid => mret uid
       | None => user_upsert_by_email e name uuid accountId login
       end) db = Done uid db1 /\ db_users db1 !! uid = Some u /\
      (forall e', Some e = Some e' -> user_email u = Some e') /\
      db_commits db1 = db_commits db).
  { intros e name login.
    destruct (user_by_email db e) as [uid|] eqn:Hbe.
    - destruct (user_by_email_spec db e uid Hbe) as (u & Hu & Hue).
      exists uid, db, u. split; [reflexivity|]. split; [exact Hu|].
      split; [intros e' [= <-]; exact Hue|reflexivity].
    - destruct (user_upsert_by_email_ok e name uuid accountId login db Hfresh)
        as (uid & db1 & u & Hup & Hu & Hue & Hc).
      exists uid, db1, u. split; [exact Hup|]. split; [exact Hu|].
      split; [intros e' [= <-]; exact Hue|exact Hc]. }
  destruct (str_truthy (pc_author_email commit)) as [e|] eqn:He;
  destruct (str_truthy (pc_author_name commit)) as [n|] eqn:Hn.
  - rewrite final_db_bind; simpl. apply (Hstep _ (Some e)). apply Hemail.
  - rewrite final_db_bind; simpl. apply (Hstep _ (Some e)). apply Hemail.
  - rewrite final_db_bind; simpl. apply (Hstep _ None).
    edestruct user_upsert_by_email_ok as (uid & db1 & u & Hup & Hu & Hue & Hc);
      [exact Hfresh|].
    exists uid, db1, u. split; [exact Hup|]. split; [exact Hu|].
    split; [discriminate|exact Hc].
  - destruct Hauth; congruence.
Qed.

Lemma js_lower_idem (c : ascii) : js_lower (js_lower c) = js_lower c.
Proof. destruct c as [[] [] [] [] [] [] [] []]; reflexivity. Qed.

Lemma js_lower_space (c : ascii) : is_js_space c = false -> is_js_space (js_lower c) = false.
Proof. destruct c as [[] [] [] [] [] [] [] []]; first [reflexivity | discriminate]. Qed.

Lemma substring_chars (P : ascii -> Prop) (m : nat) (s : string) :
  Forall P (list_ascii_of_string s) ->
  Forall P (list_ascii_of_string (substring 0 m s)) /\
  String.length (substring 0 m s) <= m.
Proof.
  revert m; induction s as [|c s IH]; intros m Hs; destruct m; simpl;
    try (split; [constructor|lia]).
  inversion Hs; subst. destruct (IH m) as [Hp Hlen]; [assumption|].
  split; [constructor; assumption|lia].
Qed.

Lemma remove_spaces_chars (s : string) :
  Forall (fun c => is_js_space c = false) (list_ascii_of_string (remove_spaces s)).
Proof.
  induction s as [|c s IH]; simpl; [constructor|].
  destruct (is_js_space c) eqn:Hc; simpl; [exact IH|constructor; assumption].
Qed.

Lemma toLowerCase_chars (s : string) :
  Forall (fun c => is_js_space c = false) (list_ascii_of_string s) ->
  Forall (fun c => is_js_space c = false /\ js_lower c = c)
         (list_ascii_of_string (toLowerCase s)).
Proof.
  induction s as [|c s IH]; simpl; intros Hs; [constructor|].
  inversion Hs; subst. constructor; [|auto].
  split; [apply js_lower_space; assumption|apply js_lower_idem].
Qed.

Lemma toLowerCase_id (s : string) :
  Forall (fun c => js_lower c = c) (list_ascii_of_string s) -> toLowerCase s = s.
Proof.
  induction s as [|c s IH]; simpl; intros Hs; [reflexivity|].
  inversion Hs; subst. f_equal; auto.
Qed.

(** X16: a placeholder login built from an author name of Latin-1
    characters (code points up to U+00FF, the characters a [string] holds
    here) has at most 20 characters, no JavaScript whitespace, and is left
    unchanged by [toLowerCase]. *)
Theorem safeLogin_of_shape (name now : string) :
  let login := safeLogin_of (Some name) now in
  String.length login <= 20 /\
  Forall (fun c => is_js_space c = false) (list_ascii_of_string login) /\
  toLowerCase login = login.
Proof.
  simpl.
  destruct (substring_chars (fun c => is_js_space c = false /\ js_lower c = c) 20
              (toLowerCase (remove_spaces name)))
    as [Hf Hl]; [apply toLowerCase_chars, remove_spaces_chars|].
  split; [exact Hl|]. split.
  - eapply Forall_impl; [exact Hf|]. intros c [? _]. assumption.
  - apply toLowerCase_id. eapply Forall_impl; [exact Hf|]. intros c [_ ?]. assumption.
Qed.

(** X1: for a full name [owner/name] with no further slash,
    [ensureRepositoryExists] succeeds; afterwards the account exists (the
    old row, or a new account named after the owner, of type
    ORGANIZATION, with installation id "unknown") and the
    repository exists (the old row, or a new one named [name]). *)
Theorem ensureRepositoryExists_ensures (repoId owner name accountId : string)
    (db : DB) :
  ~ In "/"%char (list_ascii_of_string owner) ->
  ~ In "/"%char (list_ascii_of_string name) ->
  exists db',
    ensureRepositoryExists repoId (owner ++ "/" ++ name) accountId db = Done tt db' /\
    db_accounts db' !! accountId =
      Some (default (mkAccount owner ORGANIZATION "unknown")
                    (db_accounts db !! accountId)) /\
    db_repositories db' !! repoId =
      Some (default (mkRepository name (owner ++ "/" ++ name) accountId)
                    (db_repositories db !! repoId)).
Proof. apply ensureRepositoryExists_ok. Qed.

(** X2: [ensureRepositoryExists] never changes an existing account or
    repository row, and writes no other table, whatever its outcome. *)
Theorem ensureRepositoryExists_keeps_rows (repoId fullName accountId : string)
    (db : DB) :
  let db' := final_db (ensureRepositoryExists repoId fullName accountId db) in
  (forall k a, db_accounts db !! k = Some a -> db_accounts db' !! k = Some a) /\
  (forall k r, db_repositories db !! k = Some r -> db_repositories db' !! k = Some r) /\
  db_users db' = db_users db /\
  db_memberships db' = db_memberships db /\
  db_pullRequests db' = db_pullRequests db /\
  db_commits db' = db_commits db /\
  db_prCommits db' = db_prCommits db /\
  db_prFiles db' = db_prFiles db /\
  db_pointTransactions db' = db_pointTransactions db.
Proof. apply ensureRepositoryExists_rows. Qed.

(** X14: [processCommit] never throws; it writes only user and commit rows,
    keeps every user's points, level and home account and every commit's
    repository, touches no other commit than its own, and changes nothing
    when the commit has neither an author email nor an author name. *)
Theorem processCommit_frame (commit : PushCommit) (repoId accountId uuid now : string)
    (now_ms : Z) (db : DB) :
  exists db',
    processCommit commit repoId accountId uuid now now_ms db = Done tt db' /\
    push_frame db db' /\
    db_accounts db' = db_accounts db /\
    db_repositories db' = db_repositories db /\
    (forall k, k <> pc_id commit -> db_commits db' !! k = db_commits db !! k) /\
    (str_truthy (pc_author_email commit) = None ->
     str_truthy (pc_author_name commit) = None -> db' = db).
Proof. apply processCommit_push_frame. Qed.

Lemma push_frame_of_rows (db db' : DB) :
  db_users db' = db_users db ->
  db_memberships db' = db_memberships db ->
  db_pullRequests db' = db_pullRequests db ->
  db_commits db' = db_commits db ->
  db_prCommits db' = db_prCommits db ->
  db_prFiles db' = db_prFiles db ->
  db_pointTransactions db' = db_pointTransactions db ->
  push_frame db db'.
Proof.
  intros Hu Hm Hp Hc Hl Hf Ht. split; [exact Hm|]. split; [exact Hp|].
  split; [exact Hl|]. split; [exact Hf|]. split; [exact Ht|]. split.
  - intros uid u Hx. rewrite Hu. eexists; split; [exact Hx|]. auto.
  - intros k c Hx. rewrite Hc. eauto.
Qed.

Lemma processCommits_push_frame (draw : nat -> Draw) (i : nat) (cs : list PushCommit)
    (repoId accountId : string) (db : DB) :
  exists db',
    processCommits draw i cs repoId accountId db = Done tt db' /\
    push_frame db db' /\
    db_accounts db' = db_accounts db /\
    db_repositories db' = db_repositories db.
Proof.
  revert i db; induction cs as [|c cs IH]; intros i db; simpl.
  - exists db. split; [reflexivity|]. split; [apply push_frame_refl|]. auto.
  - unfold mbind, M_bind.
    destruct (processCommit_push_frame c repoId accountId (dr_uuid (draw i))
                (dr_now (draw i)) (dr_now_ms (draw i)) db)
      as (db1 & Hp & F1 & A1 & R1 & _).
    rewrite Hp.
    destruct (IH (S i) db1) as (db2 & Hq & F2 & A2 & R2).
    exists db2. split; [exact Hq|].
    split; [eapply push_frame_trans; eassumption|]. split; congruence.
Qed.

(** X17: a push whose account id resolves to [a] and whose repository full
    name is [owner/name] is handled without an exception; afterwards the
    account [a] and the repository exist (old rows are kept, new ones are
    made from the full name), and the commits of the push change no user's
    points, level or home account and move no commit to another
    repository. *)
Theorem handlePushEvent_repository (p : Payload) (a : Z) (repoId owner name : string)
    (commits : list PushCommit) (draw : nat -> Draw) (db : DB) :
  handlerAccountId PushH p = Some a ->
  ~ In "/"%char (list_ascii_of_string owner) ->
  ~ In "/"%char (list_ascii_of_string name) ->
  exists db',
    handlePushEvent p (Some (repoId, (owner ++ "/" ++ name)%string)) commits draw db
      = Done tt db' /\
    db_accounts db' !! pretty a =
      Some (default (mkAccount owner ORGANIZATION "unknown")
                    (db_accounts db !! pretty a)) /\
    db_repositories db' !! repoId =
      Some (default (mkRepository name (owner ++ "/" ++ name) (pretty a))
                    (db_repositories db !! repoId)) /\
    push_frame db db'.
Proof.
  intros Ha Ho Hn. unfold handlePushEvent. rewrite Ha.
  destruct (ensureRepositoryExists_ok repoId owner name (pretty a) db Ho Hn)
    as (db1 & He & Hacc & Hrepo).
  pose proof (ensureRepositoryExists_rows repoId (owner ++ "/" ++ name) (pretty a) db)
    as Hrows. simpl in Hrows. rewrite He in Hrows. simpl in Hrows.
  destruct Hrows as (_ & _ & Hu & Hm & Hp & Hc & Hl & Hf & Ht).
  unfold mbind, M_bind. rewrite He.
  destruct (processCommits_push_frame draw 0 commits repoId (pretty a) db1)
    as (db2 & Hq & F2 & A2 & R2).
  rewrite Hq. exists db2. split; [reflexivity|].
  rewrite A2, R2. split; [exact Hacc|]. split; [exact Hrepo|].
  eapply push_frame_trans; [|exact F2].
  apply push_frame_of_rows; assumption.
Qed.

(** ** Witnesses *)

Lemma ensureRepositoryExists_ensures_witness :
  ~ In "/"%char (list_ascii_of_string "neworg") /\
  ~ In "/"%char (list_ascii_of_string "tool") /\
  exists db',
    ensureRepositoryExists "r2" ("neworg" ++ "/" ++ "tool") "a9" sample_db = Done tt db' /\
    db_accounts db' !! "a9"%string =
      Some (default (mkAccount "neworg" ORGANIZATION "unknown")
                    (db_accounts sample_db !! "a9"%string)) /\
    db_repositories db' !! "r2"%string =
      Some (default (mkRepository "tool" ("neworg" ++ "/" ++ "tool") "a9")
                    (db_repositories sample_db !! "r2"%string)).
Proof.
  split; [simpl; intuition discriminate|].
  split; [simpl; intuition discriminate|].
  apply (ensureRepositoryExists_ensures "r2" "neworg" "tool" "a9" sample_db);
    simpl; intuition discriminate.
Defined.

Lemma ensureRepositoryExists_idempotent_witness :
  let db' := final_db (ensureRepositoryExists "r2" "neworg/tool" "a9" sample_db) in
  ensureRepositoryExists "r2" "neworg/tool" "a9" sample_db = Done tt db' /\
  ensureRepositoryExists "r2" "renamed/tool" "a9" db' = Done tt db'.
Proof.
  simpl. split; [vm_compute; reflexivity|].
  apply (ensureRepositoryExists_idempotent "r2" "neworg/tool" "renamed/tool" "a9"
           sample_db).
  vm_compute; reflexivity.
Defined.

Lemma addReviewerToPullRequest_listed_witness :
  db_pullRequests sample_db !! "p1"%string = Some sample_pr /\
  db_users sample_db !! "u1"%string = Some (mkUser "alice" "a1" 150 2 None None) /\
  exists db' pr',
    addReviewerToPullRequest "p1" "u1" sample_db = Done tt db' /\
    db_pullRequests db' !! "p1"%string = Some pr' /\
    "u1"%string ∈ pr_reviewerIds pr' /\
    pr_reviewerIds sample_pr `prefix_of` pr_reviewerIds pr' /\
    (forall r, r ∈ pr_reviewerIds pr' -> r = "u1"%string \/ r ∈ pr_reviewerIds sample_pr).
Proof.
  split; [reflexivity|]. split; [reflexivity|].
  apply (addReviewerToPullRequest_listed "p1" "u1" sample_db sample_pr
           (mkUser "alice" "a1" 150 2 None None)); reflexivity.
Defined.

Lemma addReviewerToPullRequest_nodup_witness :
  (forall k p, db_pullRequests sample_db !! k = Some p -> NoDup (pr_reviewerIds p)) /\
  forall k p,
    db_pullRequests (final_db (addReviewerToPullRequest "p1" "u1" sample_db)) !! k
      = Some p ->
    NoDup (pr_reviewerIds p).
Proof.
  assert (H : forall k p, db_pullRequests sample_db !! k = Some p ->
                NoDup (pr_reviewerIds p)).
  { intros k p Hk. simpl in Hk.
    apply lookup_insert_Some in Hk as [[_ <-]|[_ Hk]].
    - constructor.
    - rewrite lookup_empty in Hk. discriminate. }
  split; [exact H|].
  apply (addReviewerToPullRequest_nodup "p1" "u1" sample_db H).
Defined.

Lemma addReviewerToPullRequest_throw_atomic_witness :
  addReviewerToPullRequest "p1" "u7" sample_db = Thrown connect_failed sample_db /\
  sample_db = sample_db /\ connect_failed = connect_failed /\
  db_users sample_db !! "u7"%string = None.
Proof.
  split; [vm_compute; reflexivity|].
  apply (addReviewerToPullRequest_throw_atomic "p1" "u7" sample_db sample_db
           connect_failed).
  vm_compute; reflexivity.
Defined.

Lemma storeReview_replay_witness :
  let reviews' := default ∅ (storeReview sample_db ∅ sample_review "p1" "u1") in
  storeReview sample_db ∅ sample_review "p1" "u1" = Some reviews' /\
  storeReview sample_db_other_home reviews' sample_review "p2" "u2" = Some reviews' /\
  (forall r, (∅ : gmap string Review) !! rd_id sample_review = Some r ->
     exists r', reviews' !! rd_id sample_review = Some r' /\
       rv_pullRequestId r' = rv_pullRequestId r /\ rv_authorId r' = rv_authorId r) /\
  (forall k, k <> rd_id sample_review ->
     reviews' !! k = (∅ : gmap string Review) !! k).
Proof.
  simpl. split; [vm_compute; reflexivity|].
  apply (storeReview_replay sample_db sample_db_other_home ∅ _ sample_review
           "p1" "u1" "p2" "u2").
  vm_compute; reflexivity.
Defined.

Lemma storeComment_score_witness :
  let r := storeComment sample_db ∅ sample_comment "p1" "u1" (4 # 5) true 3500 in
  (0 <= 4 # 5 <= 1)%Q /\
  r = Some (default (∅, 0%Q) r) /\
  (0 <= (default (∅, 0%Q) r).2 <= 1)%Q /\ ((default (∅, 0%Q) r).2 <= 4 # 5)%Q /\
  (true = true -> ((default (∅, 0%Q) r).2 <= 1 # 2)%Q) /\
  exists c', (default (∅, 0%Q) r).1 !! co_id sample_comment = Some c' /\
    cm_sentimentScore c' = (default (∅, 0%Q) r).2 /\
    cm_body c' = default "" (co_body sample_comment) /\
    (forall c, (∅ : gmap string Comment) !! co_id sample_comment = Some c ->
       cm_pullRequestId c' = cm_pullRequestId c /\ cm_authorId c' = cm_authorId c /\
       cm_createdAt c' = cm_createdAt c).
Proof.
  simpl. split; [split; vm_compute; discriminate|].
  split; [vm_compute; reflexivity|].
  apply (storeComment_score sample_db ∅ _ sample_comment "p1" "u1" (4 # 5) true 3500).
  - split; vm_compute; discriminate.
  - vm_compute; reflexivity.
Defined.

Lemma generateScoreLabelProps_band_monotone_witness :
  (70 # 1 <= 95 # 1)%Q /\
  (label_band (generateScoreLabelProps (70 # 1)) <=
   label_band (generateScoreLabelProps (95 # 1)))%nat.
Proof.
  split; [vm_compute; discriminate|].
  apply generateScoreLabelProps_band_monotone. vm_compute; discriminate.
Defined.

Lemma storePullRequest_getPRDescription_witness :
  (forall x c, sample_encrypt x = Some c ->
     c <> ""%string /\ sample_isEncrypted c = true /\ sample_decrypt c = Some x) /\
  (forall b, d_body sample_prData = Some b -> sample_isEncrypted b = false) /\
  exists pr db',
    storePullRequest sample_encrypt sample_isEncrypted sample_prData "a1" "r1" sample_db
      = Done pr db' /\
    getPRDescription sample_decrypt sample_isEncrypted (d_id sample_prData) db' =
      Done (str_truthy (d_body sample_prData)) db'.
Proof.
  assert (Hrt : forall x c, sample_encrypt x = Some c ->
     c <> ""%string /\ sample_isEncrypted c = true /\ sample_decrypt c = Some x).
  { intros x c [= <-]. split; [discriminate|]. split; reflexivity. }
  assert (Hpl : forall b, d_body sample_prData = Some b -> sample_isEncrypted b = false).
  { intros b [= <-]. reflexivity. }
  split; [exact Hrt|]. split; [exact Hpl|].
  destruct (storePullRequest sample_encrypt sample_isEncrypted sample_prData "a1" "r1"
              sample_db) as [pr db'|e db'] eqn:Hs; [|vm_compute in Hs; discriminate].
  exists pr, db'. split; [reflexivity|].
  exact (storePullRequest_getPRDescription sample_encrypt sample_decrypt
           sample_isEncrypted sample_prData "a1" "r1" sample_db db' pr Hrt Hpl Hs).
Defined.

Lemma updatePullRequestStatus_keeps_description_witness :
  (forall x c, sample_encrypt x = Some c ->
     c <> ""%string /\ sample_isEncrypted c = true /\ sample_decrypt c = Some x) /\
  let db' := final_db (updatePullRequestStatus sample_encrypt sample_isEncrypted
                         "p1" CLOSED None 1000 sample_db) in
  exists v, getPRDescription sample_decrypt sample_isEncrypted "p1" sample_db
              = Done v sample_db /\
            getPRDescription sample_decrypt sample_isEncrypted "p1" db' = Done v db'.
Proof.
  assert (Hrt : forall x c, sample_encrypt x = Some c ->
     c <> ""%string /\ sample_isEncrypted c = true /\ sample_decrypt c = Some x).
  { intros x c [= <-]. split; [discriminate|]. split; reflexivity. }
  split; [exact Hrt|].
  apply (updatePullRequestStatus_keeps_description sample_encrypt sample_decrypt
           sample_isEncrypted "p1" CLOSED None 1000 "p1" sample_db Hrt).
Defined.

Lemma processCommit_stores_witness :
  (str_truthy (pc_author_email sample_push_commit) <> None \/
   str_truthy (pc_author_name sample_push_commit) <> None) /\
  pc_timestamp sample_push_commit = Some 4000%Z /\
  db_users sample_db !! "uuid-0"%string = None /\
  exists db' c u,
    processCommit sample_push_commit "r1" "a1" "uuid-0" "5000" 5000 sample_db
      = Done tt db' /\
    db_commits db' !! pc_id sample_push_commit = Some c /\
    commit_committedAt c = 4000%Z /\
    db_users db' !! commit_authorId c = Some u /\
    (forall e, str_truthy (pc_author_email sample_push_commit) = Some e ->
       user_email u = Some e) /\
    commit_repositoryId c =
      default "r1"%string
        (commit_repositoryId <$> db_commits sample_db !! pc_id sample_push_commit).
Proof.
  split; [left; vm_compute; discriminate|].
  split; [reflexivity|]. split; [vm_compute; reflexivity|].
  apply (processCommit_stores sample_push_commit "r1" "a1" "uuid-0" "5000" 5000 4000
           sample_db).
  - left. vm_compute. discriminate.
  - reflexivity.
  - vm_compute. reflexivity.
Defined.

Lemma handlePushEvent_repository_witness :
  handlerAccountId PushH push_payload = Some 2%Z /\
  ~ In "/"%char (list_ascii_of_string "org") /\
  ~ In "/"%char (list_ascii_of_string "tool") /\
  exists db',
    handlePushEvent push_payload (Some ("r2"%string, ("org" ++ "/" ++ "tool")%string))
      [sample_push_commit] sample_draw sample_db = Done tt db' /\
    db_accounts db' !! pretty 2%Z =
      Some (default (mkAccount "org" ORGANIZATION "unknown")
                    (db_accounts sample_db !! pretty 2%Z)) /\
    db_repositories db' !! "r2"%string =
      Some (default (mkRepository "tool" ("org" ++ "/" ++ "tool") (pretty 2%Z))
                    (db_repositories sample_db !! "r2"%string)) /\
    push_frame sample_db db'.
Proof.
  split; [reflexivity|].
  split; [simpl; intuition discriminate|].
  split; [simpl; intuition discriminate|].
  apply (handlePushEvent_repository push_payload 2 "r2" "org" "tool"
           [sample_push_commit] sample_draw sample_db);
    [reflexivity | simpl; intuition discriminate | simpl; intuition discriminate].
Defined.
